(** * Address book (main.py): fields, contact records and the book

    A shallow embedding of [main.py] and the properties of its
    operations.  Python strings are sequences of Unicode code points, so a
    string is a list of code points here; the two character classes the
    program relies on, [str.isdigit] and the whitespace removed by
    [str.strip], are the tables of the Unicode Character Database 14.0
    (the one CPython 3.11 ships). *)

From Stdlib Require Import Strings.String Strings.Ascii.
From stdpp Require Import base numbers option list sorting.

Local Open Scope N_scope.

(** ** Strings *)

(** A Python [str]: the sequence of its code points. *)
Definition pystr := list N.

(** The string a source literal denotes (ASCII literals only). *)
Definition lit (s : string) : pystr := N_of_ascii <$> list_ascii_of_string s.

Definition in_ranges (c : N) (rs : list (N * N)) : bool :=
  existsb (λ r, (fst r <=? c) && (c <=? snd r)) rs.

(** Code points with Numeric_Type=Digit or Numeric_Type=Decimal: the
    characters for which [ch.isdigit()] is true. *)
Definition digit_ranges : list (N * N) :=
  [ (48, 57); (178, 179); (185, 185); (1632, 1641); (1776, 1785);
    (1984, 1993); (2406, 2415); (2534, 2543); (2662, 2671); (2790, 2799);
    (2918, 2927); (3046, 3055); (3174, 3183); (3302, 3311); (3430, 3439);
    (3558, 3567); (3664, 3673); (3792, 3801); (3872, 3881); (4160, 4169);
    (4240, 4249); (4969, 4977); (6112, 6121); (6160, 6169); (6470, 6479);
    (6608, 6618); (6784, 6793); (6800, 6809); (6992, 7001); (7088, 7097);
    (7232, 7241); (7248, 7257); (8304, 8304); (8308, 8313); (8320, 8329);
    (9312, 9320); (9332, 9340); (9352, 9360); (9450, 9450); (9461, 9469);
    (9471, 9471); (10102, 10110); (10112, 10120); (10122, 10130);
    (42528, 42537); (43216, 43225); (43264, 43273); (43472, 43481);
    (43504, 43513); (43600, 43609); (44016, 44025); (65296, 65305);
    (66720, 66729); (68160, 68163); (68912, 68921); (69216, 69224);
    (69714, 69722); (69734, 69743); (69872, 69881); (69942, 69951);
    (70096, 70105); (70384, 70393); (70736, 70745); (70864, 70873);
    (71248, 71257); (71360, 71369); (71472, 71481); (71904, 71913);
    (72016, 72025); (72784, 72793); (73040, 73049); (73120, 73129);
    (92768, 92777); (92864, 92873); (93008, 93017); (120782, 120831);
    (123200, 123209); (123632, 123641); (125264, 125273);
    (127232, 127242); (130032, 130041) ].

(** [ch.isdigit()] *)
Definition isdigit (ch : N) : bool := in_ranges ch digit_ranges.

(** The ten decimal digits [0] to [9]. *)
Definition is_decimal_digit (ch : N) : bool := (48 <=? ch) && (ch <=? 57).

(** Whitespace code points (bidirectional class WS, B or S, or category
    Zs): the characters [str.strip()] removes. *)
Definition space_ranges : list (N * N) :=
  [ (9, 13); (28, 32); (133, 133); (160, 160); (5760, 5760); (8192, 8202);
    (8232, 8233); (8239, 8239); (8287, 8287); (12288, 12288) ].

Definition isspace (ch : N) : bool := in_ranges ch space_ranges.

(** [s.lstrip()], [s.rstrip()], [s.strip()] *)
Fixpoint lstrip (s : pystr) : pystr :=
  match s with
  | ch :: s' => if isspace ch then lstrip s' else s
  | [] => []
  end.

Definition rstrip (s : pystr) : pystr := reverse (lstrip (reverse s)).

Definition strip (s : pystr) : pystr := rstrip (lstrip s).

(** ["".join(ch for ch in str(value) if ch.isdigit())] *)
Definition digits_of (value : pystr) : pystr := List.filter isdigit value.

(** [sep.join(parts)] *)
Fixpoint join (sep : pystr) (parts : list pystr) : pystr :=
  match parts with
  | [] => []
  | [p] => p
  | p :: rest => p ++ sep ++ join sep rest
  end.

Local Close Scope N_scope.

(** ** Exceptions and results *)

Inductive exn : Type :=
| ValueError (msg : pystr)
| KeyError (key : pystr).

(** The outcome of a call: an exception raised, or a value returned. *)
Definition result (A : Type) : Type := exn + A.

Definition is_ValueError {A} (x : result A) : Prop :=
  match x with inl (ValueError _) => True | _ => False end.

(** ** Fields *)

(** [class Field]: one attribute, [value].  [Name] and [Phone] add no
    attribute, only a validating constructor. *)
Record Field : Type := mkField { value : pystr }.

Abbreviation Name := Field.
Abbreviation Phone := Field.

(** [Field.__str__] *)
Definition Field_str (f : Field) : pystr := value f.

(** [value or ""] on a string: the empty string is the only falsy one. *)
Definition or_empty (v : pystr) : pystr :=
  match v with [] => lit "" | _ => v end.

(** [Name.__init__] *)
Definition Name_init (v : pystr) : result Name :=
  let v := strip (or_empty v) in
  match v with
  | [] => inl (ValueError (lit "Name cannot be empty."))
  | _ => inr (mkField v)
  end.

(** [Phone.__init__] *)
Definition Phone_init (v : pystr) : result Phone :=
  let raw := digits_of v in
  if negb (length raw =? 10)%nat
  then inl (ValueError (lit "Phone must contain exactly 10 digits."))
  else inr (mkField raw).

(** ** Contact records *)

(** [class Record]: a name and the list of phone objects, in the order
    they were appended. *)
Record ContactRecord : Type := mkRecord { name : Name; phones : list Phone }.

(** [Record.__init__] *)
Definition Record_init (n : pystr) : result ContactRecord :=
  match Name_init n with
  | inl e => inl e
  | inr nm => inr {| name := nm; phones := [] |}
  end.

(** A method of [Record] runs on [self] and either returns or raises;
    either way it leaves [self] in some state. *)
Definition M (A : Type) : Type := ContactRecord → result A * ContactRecord.

Global Instance M_ret : MRet M := λ A a r, (inr a, r).

Global Instance M_bind : MBind M := λ A B k m r,
  match m r with
  | (inr a, r') => k a r'
  | (inl e, r') => (inl e, r')
  end.

Definition raise {A} (e : exn) : M A := λ r, (inl e, r).

(** A constructor call inside a method: its exception propagates. *)
Definition construct {A} (x : result A) : M A := λ r, (x, r).

Definition get_phones : M (list Phone) := λ r, (inr (phones r), r).

Definition set_phones (ps : list Phone) : M unit :=
  λ r, (inr tt, {| name := name r; phones := ps |}).

(** [Record.find_phone].  The phone object returned is an element of
    [self.phones]; it is given with its position in the list, which is
    what identifies the object: every element of the list is an object of
    its own, since [add_phone] alone appends and appends a [Phone] it has
    just constructed. *)
Definition find_phone (phone_value : pystr) : M (option (nat * Phone)) :=
  let normalized := digits_of phone_value in
  ps ← get_phones;
  mret (list_find (λ p, value p = normalized) ps).

(** [Record.add_phone] *)
Definition add_phone (phone_value : pystr) : M unit :=
  phone ← construct (Phone_init phone_value);
  ps ← get_phones;
  if negb (existsb (λ p, bool_decide (value p = value phone)) ps)
  then set_phones (ps ++ [phone])
  else mret tt.

(** [Record.remove_phone].  [Field] defines no [__eq__], so
    [self.phones.remove(target)] compares by identity: it removes the
    first element that is [target], the object found at position [i]. *)
Definition remove_phone (phone_value : pystr) : M unit :=
  target ← find_phone phone_value;
  match target with
  | None => raise (KeyError phone_value)
  | Some (i, _) => ps ← get_phones; set_phones (delete i ps)
  end.

(** [Record.edit_phone]: [target.value = new_phone.value] updates the
    object at position [i] in place. *)
Definition edit_phone (old_value new_value : pystr) : M unit :=
  target ← find_phone old_value;
  match target with
  | None => raise (KeyError old_value)
  | Some (i, _) =>
      new_phone ← construct (Phone_init new_value);
      ps ← get_phones;
      set_phones (<[i := mkField (value new_phone)]> ps)
  end.

(** [Record.__str__] *)
Definition Record_str (r : ContactRecord) : pystr :=
  let phones_str :=
    match phones r with
    | [] => lit "(no phones)"
    | _ => join (lit "; ") (value <$> phones r)
    end in
  lit "Contact name: " ++ value (name r) ++ lit ", phones: " ++ phones_str.

(** The record a sequence of method calls builds, whatever each raised. *)
Definition then_ {A} (r : ContactRecord) (m : M A) : ContactRecord := snd (m r).

Definition john : ContactRecord :=
  match Record_init (lit "John") with
  | inr r => then_ (then_ r (add_phone (lit "123-456-7890")))
                   (add_phone (lit "(555) 555-5555"))
  | inl _ => mkRecord (mkField []) []
  end.

(** ** Dictionaries *)

Section pydict.
Context {V : Type}.

(** A Python [dict] with string keys: its entries in insertion order,
    one per key. *)
Definition pydict : Type := list (pystr * V).

(** [d.get(k)] *)
Fixpoint dict_get (k : pystr) (d : pydict) : option V :=
  match d with
  | [] => None
  | (k', v) :: d' => if decide (k' = k) then Some v else dict_get k d'
  end.

(** [d[k] = v]: the entry of an existing key is overwritten where it
    stands, a new key goes to the end. *)
Fixpoint dict_set (k : pystr) (v : V) (d : pydict) : pydict :=
  match d with
  | [] => [(k, v)]
  | (k', v') :: d' =>
      if decide (k' = k) then (k', v) :: d' else (k', v') :: dict_set k v d'
  end.

(** [del d[k]]: [None] stands for the [KeyError] of a missing key. *)
Fixpoint dict_del (k : pystr) (d : pydict) : option pydict :=
  match d with
  | [] => None
  | (k', v') :: d' =>
      if decide (k' = k) then Some d' else cons (k', v') <$> dict_del k d'
  end.

(** [iter(d.items())]: an iterator is the dict it walks and the position
    it has reached.  No call of the program changes a dict while it is
    being walked. *)
Record items_iterator : Type := mkIter { it_dict : pydict; it_pos : nat }.

Definition iter_items (d : pydict) : items_iterator := mkIter d 0.

(** [next(it)]: [None] stands for [StopIteration]. *)
Definition next (it : items_iterator) : option ((pystr * V) * items_iterator) :=
  match it_dict it !! it_pos it with
  | Some kv => Some (kv, mkIter (it_dict it) (S (it_pos it)))
  | None => None
  end.

(** The pairs an iterator yields until it stops, at most [fuel] of them. *)
Fixpoint drain (fuel : nat) (it : items_iterator) : list (pystr * V) :=
  match fuel with
  | O => []
  | S fuel' =>
      match next it with
      | Some (kv, it') => kv :: drain fuel' it'
      | None => []
      end
  end.

(** [for name, record in d.items()]: one traversal, from a fresh
    iterator. *)
Definition traverse (d : pydict) : list (pystr * V) :=
  drain (S (length d)) (iter_items d).

(** The assignments and deletions a dict goes through. *)
Inductive dict_call : Type :=
| DSet (k : pystr) (v : V)
| DDel (k : pystr).

Definition dict_exec (c : dict_call) (d : pydict) : pydict :=
  match c with
  | DSet k v => dict_set k v d
  | DDel k => default d (dict_del k d)
  end.

Definition dict_run (cs : list dict_call) (d : pydict) : pydict :=
  foldl (λ d c, dict_exec c d) d cs.

(** Insertion order in the spec's words: the time at which key [k] was
    inserted, where the calls are numbered from [now] on and [born] is
    the time of [k] before them.  A key is inserted when a value is set
    under it while it is absent; setting it again keeps its time;
    deleting it forgets it. *)
Fixpoint inserted_from (now : nat) (born : option nat)
    (cs : list dict_call) (k : pystr) : option nat :=
  match cs with
  | [] => born
  | DSet k' _ :: cs' =>
      let born' :=
        if decide (k' = k)
        then match born with Some t => Some t | None => Some now end
        else born in
      inserted_from (S now) born' cs' k
  | DDel k' :: cs' =>
      inserted_from (S now) (if decide (k' = k) then None else born) cs' k
  end.

Definition inserted_at (cs : list dict_call) (k : pystr) : option nat :=
  inserted_from 0 None cs k.
End pydict.

Global Arguments pydict : clear implicits.
Global Arguments items_iterator : clear implicits.
Global Arguments dict_call : clear implicits.

(** ** The address book and the objects it refers to *)

(** A reference to a [Record] object: its address in the heap. *)
Abbreviation ref := nat.

(** [class AddressBook(UserDict)]: [data] maps a name to the record object
    stored under it. *)
Record AddressBook : Type := mkBook { data : pydict ref }.

(** The record objects created so far, and the book.  A record is shared
    between the book and whoever else holds it: a method called on it
    changes the one object in the heap. *)
Record World : Type := mkWorld { heap : list ContactRecord; book : AddressBook }.

Definition empty_world : World := mkWorld [] (mkBook []).

(** [Record(n)]: a new object, when the name is accepted. *)
Definition new_record (n : pystr) (w : World) : result ref * World :=
  match Record_init n with
  | inl e => (inl e, w)
  | inr r => (inr (length (heap w)), mkWorld (heap w ++ [r]) (book w))
  end.

(** A method of [Record] called on the object at [a].  A Python reference
    always leads to an object; a reference to nothing has no call. *)
Definition on_record {A} (a : ref) (m : M A) (w : World) : option (result A) * World :=
  match heap w !! a with
  | Some r => let (x, r') := m r in (Some x, mkWorld (<[a := r']> (heap w)) (book w))
  | None => (None, w)
  end.

(** The methods of [AddressBook]. *)
Module Book.

(** [AddressBook.add_record] *)
Definition add_record (record : ref) (w : World) : World :=
  match heap w !! record with
  | Some r =>
      mkWorld (heap w) (mkBook (dict_set (value (name r)) record (data (book w))))
  | None => w
  end.

(** [AddressBook.find] *)
Definition find (nm : pystr) (w : World) : option ref :=
  dict_get nm (data (book w)).

(** [AddressBook.delete] *)
Definition delete (nm : pystr) (w : World) : result unit * World :=
  match dict_del nm (data (book w)) with
  | Some d => (inr tt, mkWorld (heap w) (mkBook d))
  | None => (inl (KeyError nm), w)
  end.

End Book.

(** [book.data.items()], traversed once. *)
Definition book_items (w : World) : list (pystr * ref) := traverse (data (book w)).

(** The calls a program makes. *)
Inductive call : Type :=
| New (n : pystr)
| AddPhone (record : ref) (phone_value : pystr)
| RemovePhone (record : ref) (phone_value : pystr)
| EditPhone (record : ref) (old_value new_value : pystr)
| AddRecord (record : ref)
| Delete (nm : pystr).

(** The world after a call, whether it returned or raised. *)
Definition exec (c : call) (w : World) : World :=
  match c with
  | New n => snd (new_record n w)
  | AddPhone a v => snd (on_record a (add_phone v) w)
  | RemovePhone a v => snd (on_record a (remove_phone v) w)
  | EditPhone a old new => snd (on_record a (edit_phone old new) w)
  | AddRecord a => Book.add_record a w
  | Delete nm => snd (Book.delete nm w)
  end.

Definition run (cs : list call) (w : World) : World :=
  foldl (λ w c, exec c w) w cs.

(** What a call does to the dict of the book. *)
Definition book_call (c : call) (w : World) : list (dict_call ref) :=
  match c with
  | AddRecord a =>
      match heap w !! a with
      | Some r => [DSet (value (name r)) a]
      | None => []
      end
  | Delete nm => [DDel nm]
  | _ => []
  end.

Fixpoint book_trace (cs : list call) (w : World) : list (dict_call ref) :=
  match cs with
  | [] => []
  | c :: cs' => book_call c w ++ book_trace cs' (exec c w)
  end.

(** The driver at the end of [main.py], up to its first loop. *)
Definition driver : list call :=
  [ New (lit "John"); AddPhone 0 (lit "123-456-7890");
    AddPhone 0 (lit "(555) 555-5555"); AddRecord 0;
    New (lit "Jane"); AddPhone 1 (lit "9876543210"); AddRecord 1 ].

(** * The vocabulary of the properties *)

(** ** Strings *)

(** [v] is [s] without its leading and trailing whitespace. *)
Definition trimmed_of (s v : pystr) : Prop :=
  ∃ pre post,
    s = pre ++ v ++ post ∧
    Forall (λ c, isspace c = true) pre ∧
    Forall (λ c, isspace c = true) post ∧
    (∀ c, head v = Some c → isspace c = false) ∧
    (∀ c, last v = Some c → isspace c = false).

(** A string that neither starts nor ends with whitespace. *)
Definition trimmed (v : pystr) : Prop :=
  (∀ c, head v = Some c → isspace c = false) ∧
  (∀ c, last v = Some c → isspace c = false).

(** A string that starts or ends with whitespace. *)
Definition padded (s : pystr) : Prop :=
  (∃ c, head s = Some c ∧ isspace c = true) ∨
  (∃ c, last s = Some c ∧ isspace c = true).

(** Ten times SUPERSCRIPT TWO (U+00B2), and ten decimal digits followed
    by it.  The character is a digit for [str.isdigit] and a decimal digit
    in no script: its general category is No, not Nd, and
    [str.isdecimal] is false for it. *)
Definition superscripts : pystr := replicate 10 178%N.
Definition ten_and_superscript : pystr := lit "1234567890" ++ [178%N].

(** ** Records *)

(** The number of phones of the record with value [v]. *)
Definition count_value (v : pystr) (r : ContactRecord) : nat :=
  length (List.filter (λ p, bool_decide (value p = v)) (phones r)).

(** No two phones of the record have the same value. *)
Definition no_duplicate_phones (r : ContactRecord) : Prop :=
  NoDup (value <$> phones r).

(** A record built through the methods alone: two phones added, then the
    first edited into the second. *)
Definition doubled : ContactRecord :=
  then_ (then_ (then_ (mkRecord (mkField (lit "John")) [])
                      (add_phone (lit "1111111111")))
               (add_phone (lit "2222222222")))
        (edit_phone (lit "1111111111") (lit "2222222222")).

(** A phone as [Phone] makes it: ten characters of [str.isdigit]. *)
Definition phone_valid (p : Phone) : Prop :=
  length (value p) = 10 ∧ Forall (λ c, isdigit c = true) (value p).

(** A record as the constructors make it: a name that is not empty and
    neither starts nor ends with whitespace, and valid phones. *)
Definition record_valid (r : ContactRecord) : Prop :=
  value (name r) ≠ [] ∧ trimmed (value (name r)) ∧ Forall phone_valid (phones r).

(** ** Insertion times *)

Section insertion_times.
Context {V : Type}.
Implicit Types (d : pydict V) (k : pystr) (born : pystr → option nat).

(** Key [k1] was inserted before key [k2]. *)
Definition born_before born (k1 k2 : pystr) : Prop :=
  ∃ t1 t2, born k1 = Some t1 ∧ born k2 = Some t2 ∧ t1 < t2.

(** The insertion times after one call made at time [now]. *)
Definition born_step (now : nat) (c : dict_call V) born : pystr → option nat :=
  λ k,
    match c with
    | DSet k' _ =>
        if decide (k' = k)
        then match born k with Some t => Some t | None => Some now end
        else born k
    | DDel k' => if decide (k' = k) then None else born k
    end.

(** The keys of the dict are the keys that have an insertion time, the
    times lie in the past, and the keys stand in the order of their
    times. *)
Record dict_inv (now : nat) born d : Prop := mkDictInv {
  inv_live : ∀ k, k ∈ d.*1 ↔ is_Some (born k);
  inv_past : ∀ k t, born k = Some t → t < now;
  inv_sorted : StronglySorted (born_before born) d.*1
}.

End insertion_times.

(** ** The world *)

(** The names of the records are trimmed, and every entry of the book
    stands under the name of the record it refers to. *)
Record world_inv (w : World) : Prop := mkWorldInv {
  names_trimmed : ∀ a r, heap w !! a = Some r → trimmed (value (name r));
  keys_are_names :
    ∀ k a, (k, a) ∈ data (book w) → ∃ r, heap w !! a = Some r ∧ value (name r) = k
}.

(** The calls other than [edit_phone]. *)
Definition no_edit (c : call) : bool :=
  match c with EditPhone _ _ _ => false | _ => true end.

(** * Properties *)

(** ** The definitions at work *)

Example Phone_init_dashes :
  Phone_init (lit "123-456-7890") = inr (mkField (lit "1234567890")).
Proof. reflexivity. Qed.

Example Phone_init_short : is_ValueError (Phone_init (lit "12345")).
Proof. exact I. Qed.

Example Name_init_padded :
  Name_init (lit "  John Smith ") = inr (mkField (lit "John Smith")).
Proof. reflexivity. Qed.

Example Name_init_blank : is_ValueError (Name_init (lit "   ")).
Proof. exact I. Qed.

Example john_phones :
  john = mkRecord (mkField (lit "John"))
           [mkField (lit "1234567890"); mkField (lit "5555555555")].
Proof. vm_compute. reflexivity. Qed.

Example john_edit :
  edit_phone (lit "1234567890") (lit "1112223333") john
  = (inr tt, mkRecord (mkField (lit "John"))
               [mkField (lit "1112223333"); mkField (lit "5555555555")]).
Proof. vm_compute. reflexivity. Qed.

Example john_find :
  find_phone (lit "555-555-5555") john
  = (inr (Some (1, mkField (lit "5555555555"))), john).
Proof. vm_compute. reflexivity. Qed.

Example john_remove_missing :
  remove_phone (lit "000-000-0000") john = (inl (KeyError (lit "000-000-0000")), john).
Proof. vm_compute. reflexivity. Qed.

(** ** Character classes and trimming *)

Lemma in_ranges_false (c : N) (rs : list (N * N)) :
  Forall (λ r, (c < fst r)%N ∨ (snd r < c)%N) rs → in_ranges c rs = false.
Proof.
  unfold in_ranges. induction 1 as [|r rs Hr _ IH]; simpl; [reflexivity|].
  rewrite IH, orb_false_r. apply andb_false_iff.
  destruct Hr; [left; apply N.leb_gt | right; apply N.leb_gt]; assumption.
Qed.

Lemma isdigit_ascii (c : N) : (c < 128)%N → isdigit c = is_decimal_digit c.
Proof.
  intros Hc. unfold isdigit, digit_ranges, is_decimal_digit.
  change (in_ranges c (?r :: ?rs))
    with ((fst r <=? c)%N && (c <=? snd r)%N || in_ranges c rs).
  rewrite in_ranges_false; [apply orb_false_r|].
  repeat constructor; simpl; lia.
Qed.

Lemma lstrip_split (s : pystr) :
  ∃ pre, s = pre ++ lstrip s ∧ Forall (λ c, isspace c = true) pre.
Proof.
  induction s as [|c s [pre [Hs Hpre]]]; simpl.
  - exists []. split; [reflexivity | constructor].
  - destruct (isspace c) eqn:Hc.
    + exists (c :: pre). split; [simpl; congruence | constructor; assumption].
    + exists []. split; [reflexivity | constructor].
Qed.

Lemma lstrip_head (s : pystr) (c : N) : head (lstrip s) = Some c → isspace c = false.
Proof.
  induction s as [|a s IH]; simpl; [discriminate|].
  destruct (isspace a) eqn:Ha; [assumption|].
  simpl. intros [= <-]. assumption.
Qed.

Lemma lstrip_all_space (s : pystr) :
  Forall (λ c, isspace c = true) s → lstrip s = [].
Proof. induction 1 as [|c s Hc _ IH]; simpl; [|rewrite Hc]; auto. Qed.

Lemma lstrip_nonempty (s : pystr) (c : N) :
  c ∈ s → isspace c = false → lstrip s ≠ [].
Proof.
  intros Hin Hc Hnil. destruct (lstrip_split s) as [pre [Hs Hpre]].
  rewrite Hnil, app_nil_r in Hs. subst pre.
  rewrite Forall_forall in Hpre. specialize (Hpre c Hin). congruence.
Qed.

Lemma rstrip_split (s : pystr) :
  ∃ post, s = rstrip s ++ post ∧ Forall (λ c, isspace c = true) post.
Proof.
  unfold rstrip. destruct (lstrip_split (reverse s)) as [pre [Hs Hpre]].
  exists (reverse pre). split.
  - rewrite <- reverse_app, <- Hs, reverse_involutive. reflexivity.
  - apply Forall_reverse. assumption.
Qed.

Lemma rstrip_last (s : pystr) (c : N) : last (rstrip s) = Some c → isspace c = false.
Proof. unfold rstrip. rewrite last_reverse. apply lstrip_head. Qed.

Lemma rstrip_nonempty (s : pystr) (c : N) :
  c ∈ s → isspace c = false → rstrip s ≠ [].
Proof.
  intros Hin Hc Hnil. destruct (rstrip_split s) as [post [Hs Hpost]].
  rewrite Hnil in Hs. simpl in Hs. subst post.
  rewrite Forall_forall in Hpost. specialize (Hpost c Hin). congruence.
Qed.

Lemma strip_trimmed (s : pystr) : trimmed_of s (strip s).
Proof.
  unfold strip.
  destruct (lstrip_split s) as [pre [Hs Hpre]].
  destruct (rstrip_split (lstrip s)) as [post [Ht Hpost]].
  exists pre, post. split_and!; try assumption.
  - rewrite <- Ht. exact Hs.
  - intros c Hc. apply (lstrip_head s).
    rewrite Ht. destruct (rstrip (lstrip s)); [discriminate | exact Hc].
  - apply rstrip_last.
Qed.

Lemma strip_nonempty (s : pystr) (c : N) :
  c ∈ s → isspace c = false → strip s ≠ [].
Proof.
  intros Hin Hc. unfold strip.
  pose proof (lstrip_nonempty s c Hin Hc) as Hl.
  destruct (lstrip s) as [|a t] eqn:Ht; [congruence|].
  apply (rstrip_nonempty _ a); [left|].
  apply (lstrip_head s). rewrite Ht. reflexivity.
Qed.

Lemma strip_all_space (s : pystr) :
  Forall (λ c, isspace c = true) s → strip s = [].
Proof. intros H. unfold strip. rewrite lstrip_all_space by assumption. reflexivity. Qed.

Lemma or_empty_id (s : pystr) : or_empty s = s.
Proof. destruct s; reflexivity. Qed.

(** ** Name *)

Lemma Name_init_ok (s : pystr) :
  strip s ≠ [] → Name_init s = inr (mkField (strip s)).
Proof.
  intros H. unfold Name_init. rewrite or_empty_id.
  destruct (strip s); [congruence | reflexivity].
Qed.

(** C4: a string with a character that is not whitespace makes a [Name]
    whose value is the string without its leading and trailing whitespace;
    the empty string and a string of whitespace only are refused with the
    validation error ([ValueError]). *)
Theorem Name_init_trims (s : pystr) :
  ((∃ c, c ∈ s ∧ isspace c = false) →
     ∃ v, Name_init s = inr (mkField v) ∧ trimmed_of s v ∧ v ≠ []) ∧
  (Forall (λ c, isspace c = true) s → is_ValueError (Name_init s)).
Proof.
  split.
  - intros (c & Hin & Hc). exists (strip s).
    pose proof (strip_nonempty s c Hin Hc) as Hne.
    split_and!; [apply Name_init_ok; assumption | apply strip_trimmed | assumption].
  - intros Hall. unfold Name_init. rewrite or_empty_id, strip_all_space by assumption.
    exact I.
Qed.

Lemma Name_init_trims_witness :
  (∃ v, Name_init (lit " Ann ") = inr (mkField v) ∧ trimmed_of (lit " Ann ") v ∧ v ≠ [])
  ∧ is_ValueError (Name_init (lit "  ")).
Proof.
  split.
  - apply (proj1 (Name_init_trims (lit " Ann "))).
    exists 65%N. split; [vm_compute; apply list_elem_of_In; simpl; tauto | reflexivity].
  - apply (proj2 (Name_init_trims (lit "  "))). repeat constructor.
Defined.

(** ** Phone *)

Lemma Phone_init_ok (s : pystr) :
  length (digits_of s) = 10 → Phone_init s = inr (mkField (digits_of s)).
Proof. intros H. unfold Phone_init. rewrite H. reflexivity. Qed.

Lemma Phone_init_error (s : pystr) :
  length (digits_of s) ≠ 10 →
  Phone_init s = inl (ValueError (lit "Phone must contain exactly 10 digits.")).
Proof.
  intros H. unfold Phone_init.
  destruct (Nat.eqb_spec (length (digits_of s)) 10); [contradiction | reflexivity].
Qed.

Lemma digits_of_isdigit (s : pystr) : Forall (λ c, isdigit c = true) (digits_of s).
Proof.
  apply Forall_forall. intros c Hc. apply list_elem_of_In in Hc.
  apply filter_In in Hc. tauto.
Qed.

(** C3, as the code has it: [Phone(s)] succeeds exactly when the
    characters of [s] for which [str.isdigit] holds number ten, it then
    stores those ten characters in their order, and it raises the
    validation error ([ValueError]) for any other count.  The characters
    of [str.isdigit] are the decimal digits 0 to 9 among the ASCII
    characters, so on an ASCII string the count is that of its decimal
    digits. *)
Theorem Phone_init_isdigit_count (s : pystr) :
  let digits := List.filter isdigit s in
  ((∃ p, Phone_init s = inr p) ↔ length digits = 10) ∧
  (∀ p, Phone_init s = inr p →
     value p = digits ∧ length (value p) = 10 ∧
     Forall (λ c, isdigit c = true) (value p)) ∧
  (length digits ≠ 10 → is_ValueError (Phone_init s)) ∧
  (Forall (λ c, (c < 128)%N) s → digits = List.filter is_decimal_digit s).
Proof.
  cbv zeta. fold (digits_of s). split_and!.
  - split.
    + intros [p Hp]. destruct (decide (length (digits_of s) = 10)) as [|Hne]; [assumption|].
      rewrite (Phone_init_error s Hne) in Hp. discriminate.
    + intros H. eexists. apply Phone_init_ok. assumption.
  - intros p Hp. destruct (decide (length (digits_of s) = 10)) as [Heq|Hne].
    + rewrite (Phone_init_ok s Heq) in Hp. injection Hp as <-. simpl.
      split_and!; [reflexivity | assumption | apply digits_of_isdigit].
    + rewrite (Phone_init_error s Hne) in Hp. discriminate.
  - intros Hne. rewrite (Phone_init_error s Hne). exact I.
  - intros Hascii. unfold digits_of. induction Hascii as [|c s Hc _ IH]; [reflexivity|].
    simpl. rewrite (isdigit_ascii c Hc), IH. reflexivity.
Qed.

Lemma Phone_init_isdigit_count_witness :
  is_ValueError (Phone_init (lit "555-1234")) ∧
  List.filter isdigit (lit "555-1234") = List.filter is_decimal_digit (lit "555-1234").
Proof.
  split.
  - apply (proj1 (proj2 (proj2 (Phone_init_isdigit_count (lit "555-1234"))))).
    vm_compute. discriminate.
  - apply (proj2 (proj2 (proj2 (Phone_init_isdigit_count (lit "555-1234"))))).
    repeat (constructor; [reflexivity|]). constructor.
Defined.

(** C3 as stated fails: a string without any decimal digit makes a
    [Phone], and a string with exactly ten decimal digits is refused. *)
Lemma Phone_init_not_decimal :
  (Phone_init superscripts = inr (mkField superscripts)
   ∧ length (List.filter is_decimal_digit superscripts) = 0)
  ∧ (is_ValueError (Phone_init ten_and_superscript)
     ∧ length (List.filter is_decimal_digit ten_and_superscript) = 10).
Proof. vm_compute. repeat split. Qed.

(** ** Records: the equations of the methods *)

Lemma find_phone_eq (raw : pystr) (r : ContactRecord) :
  find_phone raw r = (inr (list_find (λ p, value p = digits_of raw) (phones r)), r).
Proof. reflexivity. Qed.

Lemma add_phone_eq (raw : pystr) (r : ContactRecord) :
  add_phone raw r =
  match Phone_init raw with
  | inl e => (inl e, r)
  | inr phone =>
      if existsb (λ p, bool_decide (value p = value phone)) (phones r)
      then (inr tt, r)
      else (inr tt, mkRecord (name r) (phones r ++ [phone]))
  end.
Proof.
  unfold add_phone, mbind, M_bind, construct, get_phones. simpl.
  destruct (Phone_init raw) as [e|phone]; [reflexivity|].
  destruct (existsb _ _); reflexivity.
Qed.

Lemma remove_phone_eq (raw : pystr) (r : ContactRecord) :
  remove_phone raw r =
  match list_find (λ p, value p = digits_of raw) (phones r) with
  | None => (inl (KeyError raw), r)
  | Some (i, _) => (inr tt, mkRecord (name r) (delete i (phones r)))
  end.
Proof.
  unfold remove_phone, mbind, M_bind. rewrite find_phone_eq.
  destruct (list_find _ _) as [[i p]|]; reflexivity.
Qed.

Lemma edit_phone_eq (old new : pystr) (r : ContactRecord) :
  edit_phone old new r =
  match list_find (λ p, value p = digits_of old) (phones r) with
  | None => (inl (KeyError old), r)
  | Some (i, _) =>
      match Phone_init new with
      | inl e => (inl e, r)
      | inr new_phone =>
          (inr tt, mkRecord (name r) (<[i := mkField (value new_phone)]> (phones r)))
      end
  end.
Proof.
  unfold edit_phone, mbind, M_bind. rewrite find_phone_eq.
  destruct (list_find _ _) as [[i p]|]; [|reflexivity].
  unfold construct. destruct (Phone_init new); reflexivity.
Qed.

Lemma find_present (v : pystr) (ps : list Phone) :
  (∃ p, p ∈ ps ∧ value p = v) →
  ∃ i p, list_find (λ p, value p = v) ps = Some (i, p).
Proof.
  intros (p & Hin & Hp).
  destruct (list_find_elem_of (λ p, value p = v) ps p Hin Hp) as [[i q] H].
  eauto.
Qed.

Lemma find_absent (v : pystr) (ps : list Phone) :
  (∀ p, p ∈ ps → value p ≠ v) → list_find (λ p, value p = v) ps = None.
Proof. intros H. apply list_find_None, Forall_forall. exact H. Qed.

(** ** Editing a phone *)

(** C1: when the record holds a phone equal to the normalization of [old]
    and [new] does not normalize to ten digits, [edit_phone old new] raises
    the validation error ([ValueError]) and leaves the record, its phone
    list included, as it was. *)
Theorem edit_phone_invalid_atomic (r : ContactRecord) (old new : pystr) :
  (∃ p, p ∈ phones r ∧ value p = digits_of old) →
  length (digits_of new) ≠ 10 →
  ∃ msg, edit_phone old new r = (inl (ValueError msg), r).
Proof.
  intros Hold Hnew. destruct (find_present _ _ Hold) as (i & p & Hfind).
  rewrite edit_phone_eq, Hfind, (Phone_init_error new Hnew). eauto.
Qed.

Lemma edit_phone_invalid_atomic_witness :
  ∃ msg, edit_phone (lit "123 456 7890") (lit "12-34") john = (inl (ValueError msg), john).
Proof.
  apply edit_phone_invalid_atomic.
  - exists (mkField (lit "1234567890")). split; [|reflexivity].
    vm_compute. left.
  - vm_compute. discriminate.
Defined.

(** ** Removing a phone *)

(** C7: when the record holds a phone equal to the normalization of [raw],
    [remove_phone raw] returns and takes out the first such phone: the
    phones before it and after it stay, in their order, and so does the
    name. *)
Theorem remove_phone_first_match (r : ContactRecord) (raw : pystr) :
  (∃ p, p ∈ phones r ∧ value p = digits_of raw) →
  ∃ before p after,
    phones r = before ++ p :: after ∧
    value p = digits_of raw ∧
    (∀ q, q ∈ before → value q ≠ digits_of raw) ∧
    remove_phone raw r = (inr tt, mkRecord (name r) (before ++ after)).
Proof.
  intros Hraw. destruct (find_present _ _ Hraw) as (i & p & Hfind).
  rewrite remove_phone_eq, Hfind.
  apply list_find_Some in Hfind as (Hi & Hp & Hfirst).
  exists (take i (phones r)), p, (drop (S i) (phones r)). split_and!.
  - symmetry. apply take_drop_middle. assumption.
  - assumption.
  - intros q Hq. apply elem_of_take in Hq as (j & Hj & Hlt). eauto.
  - rewrite delete_take_drop. reflexivity.
Qed.

Lemma remove_phone_first_match_witness :
  ∃ before p after,
    phones john = before ++ p :: after ∧
    value p = digits_of (lit "(555) 555 5555") ∧
    (∀ q, q ∈ before → value q ≠ digits_of (lit "(555) 555 5555")) ∧
    remove_phone (lit "(555) 555 5555") john
    = (inr tt, mkRecord (name john) (before ++ after)).
Proof.
  apply remove_phone_first_match.
  exists (mkField (lit "5555555555")). split; [|reflexivity].
  vm_compute. right. left.
Defined.

(** ** Adding a phone *)

Lemma existsb_filter {A} (f : A → bool) (l : list A) :
  existsb f l = negb (Nat.eqb (length (List.filter f l)) 0).
Proof.
  induction l as [|a l IH]; simpl; [reflexivity|].
  destruct (f a); simpl; [reflexivity | assumption].
Qed.

Lemma count_value_app (v : pystr) (nm : Name) (ps qs : list Phone) :
  count_value v (mkRecord nm (ps ++ qs))
  = count_value v (mkRecord nm ps) + count_value v (mkRecord nm qs).
Proof. unfold count_value. simpl. rewrite List.filter_app, length_app. reflexivity. Qed.

(** On a record that holds the value at most once, as every record does
    that [edit_phone] has not given a number twice, adding two strings
    that normalize to the same ten digits leaves exactly one phone with
    that value, and the second call returns without an error and without
    a change. *)
Theorem add_phone_idempotent (r : ContactRecord) (a b v : pystr) :
  digits_of a = v → digits_of b = v → length v = 10 →
  count_value v r ≤ 1 →
  ∃ r1, add_phone a r = (inr tt, r1) ∧
        add_phone b r1 = (inr tt, r1) ∧
        count_value v r1 = 1.
Proof.
  intros Ha Hb Hlen Hcount.
  assert (Hinit : ∀ s, digits_of s = v → Phone_init s = inr (mkField v)).
  { intros s Hs. rewrite <- Hs. apply Phone_init_ok. congruence. }
  assert (Hsecond : ∀ r1, count_value v r1 = 1 → add_phone b r1 = (inr tt, r1)).
  { intros r1 H1. rewrite add_phone_eq, (Hinit b Hb). simpl.
    rewrite existsb_filter. fold (count_value v r1). rewrite H1. reflexivity. }
  rewrite add_phone_eq, (Hinit a Ha). simpl. rewrite existsb_filter.
  fold (count_value v r).
  destruct (count_value v r) as [|n] eqn:Hn; simpl.
  - eexists. split; [reflexivity|].
    assert (H1 : count_value v (mkRecord (name r) (phones r ++ [mkField v])) = 1).
    { rewrite count_value_app. destruct r as [nm ps]. simpl in *. rewrite Hn.
      unfold count_value. simpl. rewrite bool_decide_eq_true_2 by reflexivity.
      reflexivity. }
    split; [apply Hsecond|]; exact H1.
  - exists r. assert (H1 : count_value v r = 1) by lia.
    split; [reflexivity|]. split; [apply Hsecond|]; exact H1.
Qed.

Lemma add_phone_idempotent_witness :
  ∃ r1, add_phone (lit "123-456-7890") (mkRecord (mkField (lit "John")) []) = (inr tt, r1) ∧
        add_phone (lit "1234567890") r1 = (inr tt, r1) ∧
        count_value (lit "1234567890") r1 = 1.
Proof.
  apply add_phone_idempotent; [reflexivity | reflexivity | reflexivity |].
  vm_compute. lia.
Defined.

(** C6 fails on a record in which [edit_phone] has left a number twice
    (the defect of C2): adding two strings that normalize to that number
    returns both times, and two phones with the value remain, not one. *)
Lemma add_phone_keeps_two_copies :
  Record_init (lit "John") = inr (mkRecord (mkField (lit "John")) []) ∧
  doubled = mkRecord (mkField (lit "John"))
              [mkField (lit "2222222222"); mkField (lit "2222222222")] ∧
  digits_of (lit "222-222-2222") = lit "2222222222" ∧
  digits_of (lit "2222222222") = lit "2222222222" ∧
  add_phone (lit "222-222-2222") doubled = (inr tt, doubled) ∧
  add_phone (lit "2222222222") doubled = (inr tt, doubled) ∧
  count_value (lit "2222222222") doubled = 2.
Proof. vm_compute. repeat split. Qed.

(** ** No two phones with the same value *)

Lemma Record_init_no_duplicates (n : pystr) (r : ContactRecord) :
  Record_init n = inr r → no_duplicate_phones r.
Proof.
  unfold Record_init. destruct (Name_init n); [discriminate|].
  intros [= <-]. apply NoDup_nil_2.
Qed.

Lemma existsb_value_false (v : pystr) (ps : list Phone) :
  existsb (λ p, bool_decide (value p = v)) ps = false → v ∉ value <$> ps.
Proof.
  intros H Hin. apply list_elem_of_fmap in Hin as (p & -> & Hp).
  assert (existsb (λ q, bool_decide (value q = value p)) ps = true) as Ht.
  { apply existsb_exists. exists p. split; [apply list_elem_of_In; assumption|].
    apply bool_decide_eq_true_2. reflexivity. }
  congruence.
Qed.

Lemma add_phone_no_duplicates (raw : pystr) (r : ContactRecord) :
  no_duplicate_phones r → no_duplicate_phones (then_ r (add_phone raw)).
Proof.
  unfold no_duplicate_phones, then_. intros Hr. rewrite add_phone_eq.
  destruct (Phone_init raw) as [e|phone]; [assumption|].
  destruct (existsb _ _) eqn:Hex; [assumption|]. simpl.
  rewrite fmap_app. apply NoDup_app. split_and!.
  - assumption.
  - intros x Hx Hx'. apply list_elem_of_singleton in Hx'. subst x.
    exact (existsb_value_false _ _ Hex Hx).
  - apply NoDup_singleton.
Qed.

Lemma remove_phone_no_duplicates (raw : pystr) (r : ContactRecord) :
  no_duplicate_phones r → no_duplicate_phones (then_ r (remove_phone raw)).
Proof.
  unfold no_duplicate_phones, then_. intros Hr. rewrite remove_phone_eq.
  destruct (list_find _ _) as [[i p]|]; [|assumption]. simpl.
  rewrite list_fmap_delete. exact (sublist_NoDup _ _ Hr (sublist_delete _ i)).
Qed.

(** C2 fails where [edit_phone] is given a value the record already holds:
    the call returns and the list then holds that value twice, while
    [add_phone] and [remove_phone] keep the values distinct. *)
Theorem edit_phone_makes_duplicate :
  let r := mkRecord (mkField (lit "John"))
             [mkField (lit "1111111111"); mkField (lit "2222222222")] in
  let r' := mkRecord (mkField (lit "John"))
              [mkField (lit "2222222222"); mkField (lit "2222222222")] in
  Record_init (lit "John") = inr (mkRecord (mkField (lit "John")) []) ∧
  then_ (then_ (mkRecord (mkField (lit "John")) []) (add_phone (lit "1111111111")))
        (add_phone (lit "2222222222")) = r ∧
  no_duplicate_phones r ∧
  edit_phone (lit "1111111111") (lit "2222222222") r = (inr tt, r') ∧
  ¬ no_duplicate_phones r'.
Proof.
  cbv zeta. split_and!; try (vm_compute; reflexivity).
  - unfold no_duplicate_phones. simpl. apply NoDup_cons. split.
    + intros H. apply list_elem_of_singleton in H. discriminate.
    + apply NoDup_singleton.
  - unfold no_duplicate_phones. simpl. intros H. apply NoDup_cons in H as [H _].
    apply H. left.
Qed.

Lemma NoDup_insert_fresh {A} (l : list A) (i : nat) (x : A) :
  NoDup l → x ∉ l → NoDup (<[i:=x]> l).
Proof.
  intros Hl. revert i. induction Hl as [|a l Ha Hl IH]; intros i Hx; [constructor|].
  apply not_elem_of_cons in Hx as [Hxa Hxl].
  destruct i as [|i]; simpl.
  - apply NoDup_cons. split; assumption.
  - apply NoDup_cons. split; [|apply IH; assumption].
    intros Hin. apply list_elem_of_lookup in Hin as [j Hj].
    apply list_lookup_insert_Some in Hj as [(_ & -> & _)|[_ Hj]]; [congruence|].
    apply Ha. apply list_elem_of_lookup. eauto.
Qed.

Lemma edit_phone_no_duplicates (old new : pystr) (r : ContactRecord) :
  digits_of new ∉ value <$> phones r →
  no_duplicate_phones r → no_duplicate_phones (then_ r (edit_phone old new)).
Proof.
  unfold no_duplicate_phones, then_. intros Hnew Hr. rewrite edit_phone_eq.
  destruct (list_find _ _) as [[i p]|]; [|assumption].
  destruct (decide (length (digits_of new) = 10)) as [Hlen|Hlen].
  - rewrite (Phone_init_ok new Hlen). simpl. rewrite list_fmap_insert. simpl.
    apply NoDup_insert_fresh; assumption.
  - rewrite (Phone_init_error new Hlen). assumption.
Qed.

(** ** Rendering a record *)

Lemma join_cons (sep p : pystr) (ps : list pystr) :
  join sep (p :: ps) = p ++ concat ((λ q, sep ++ q) <$> ps).
Proof.
  revert p. induction ps as [|q ps IH]; intros p.
  - simpl. rewrite app_nil_r. reflexivity.
  - change (join sep (p :: q :: ps)) with (p ++ sep ++ join sep (q :: ps)).
    rewrite IH. simpl. rewrite <- app_assoc. reflexivity.
Qed.

Lemma join_snoc (sep p : pystr) (ps : list pystr) :
  ps ≠ [] → join sep (ps ++ [p]) = join sep ps ++ sep ++ p.
Proof.
  destruct ps as [|q ps]; [congruence|]. intros _.
  change ((q :: ps) ++ [p]) with (q :: (ps ++ [p])).
  rewrite !join_cons, fmap_app, concat_app. simpl.
  rewrite app_nil_r, <- app_assoc. reflexivity.
Qed.

(** C9: the rendering is a function of the record: the name, then the
    values of the phones in list order with ["; "] between them, or the
    placeholder text when there is no phone; a phone that [add_phone]
    appends is rendered last; and the record John of the scenario renders
    its two normalized phones. *)
Theorem Record_str_format (r : ContactRecord) :
  Record_str r
  = lit "Contact name: " ++ value (name r) ++ lit ", phones: " ++
    match phones r with
    | [] => lit "(no phones)"
    | p :: ps => value p ++ concat ((λ q, lit "; " ++ value q) <$> ps)
    end
  ∧ (∀ raw, phones r ≠ [] → length (digits_of raw) = 10 →
       digits_of raw ∉ value <$> phones r →
       Record_str (then_ r (add_phone raw)) = Record_str r ++ lit "; " ++ digits_of raw)
  ∧ Record_init (lit "John") = inr (mkRecord (mkField (lit "John")) [])
  ∧ john = then_ (then_ (mkRecord (mkField (lit "John")) [])
                        (add_phone (lit "123-456-7890")))
                 (add_phone (lit "(555) 555-5555"))
  ∧ Record_str john = lit "Contact name: John, phones: 1234567890; 5555555555".
Proof.
  split_and!; [| | vm_compute; reflexivity..].
  - unfold Record_str. destruct (phones r) as [|p ps] eqn:Hps; [reflexivity|].
    rewrite fmap_cons, join_cons, <- list_fmap_compose. reflexivity.
  - intros raw Hne Hlen Hfresh. unfold then_. rewrite add_phone_eq, (Phone_init_ok raw Hlen).
    simpl. destruct (existsb _ _) eqn:Hex.
    + exfalso. apply Hfresh. apply existsb_exists in Hex as (p & Hp & Heq).
      apply bool_decide_eq_true_1 in Heq. rewrite <- Heq.
      apply list_elem_of_fmap_2, list_elem_of_In. assumption.
    + unfold Record_str. simpl. destruct (phones r) as [|p ps] eqn:Hps; [congruence|].
      change ((p :: ps) ++ [mkField (digits_of raw)])
        with (p :: (ps ++ [mkField (digits_of raw)])).
      cbv iota. rewrite <- Hps.
      assert (Hv : value <$> p :: ps ++ [mkField (digits_of raw)]
                   = (value <$> phones r) ++ [digits_of raw]).
      { rewrite Hps, fmap_cons, fmap_app. reflexivity. }
      rewrite Hv, join_snoc.
      * rewrite <- !app_assoc. reflexivity.
      * rewrite Hps. discriminate.
Qed.

(** ** Dictionaries *)

Section pydict_facts.
Context {V : Type}.
Implicit Types (d : pydict V) (k : pystr) (v : V).

Lemma dict_get_None d k : dict_get k d = None ↔ k ∉ d.*1.
Proof.
  induction d as [|[k' v'] d IH]; simpl.
  - split; [intros _; apply not_elem_of_nil | reflexivity].
  - rewrite not_elem_of_cons. destruct (decide (k' = k)) as [->|Hne].
    + split; [discriminate | intros [H _]; congruence].
    + rewrite IH. split; [intros H; split; [congruence | exact H] | intros [_ H]; exact H].
Qed.

Lemma dict_get_Some_elem d k v : dict_get k d = Some v → (k, v) ∈ d.
Proof.
  induction d as [|[k' v'] d IH]; simpl; [discriminate|].
  destruct (decide (k' = k)) as [->|Hne].
  - intros [= ->]. left.
  - intros H. right. apply IH. exact H.
Qed.

Lemma dict_get_elem d k v : NoDup d.*1 → (k, v) ∈ d → dict_get k d = Some v.
Proof.
  induction d as [|[k' v'] d IH]; simpl; intros Hnd Hin.
  - apply elem_of_nil in Hin. contradiction.
  - apply NoDup_cons in Hnd as [Hk' Hnd].
    apply elem_of_cons in Hin as [[= -> ->]|Hin].
    + rewrite decide_True by reflexivity. reflexivity.
    + destruct (decide (k' = k)) as [->|Hne]; [|apply IH; assumption].
      exfalso. apply Hk'. apply (list_elem_of_fmap_2 fst) in Hin. exact Hin.
Qed.

Lemma dict_set_keys d k v :
  (dict_set k v d).*1 = if decide (k ∈ d.*1) then d.*1 else d.*1 ++ [k].
Proof.
  induction d as [|[k' v'] d IH].
  - destruct (decide (k ∈ ([] : pydict V).*1)) as [H|_]; [|reflexivity].
    apply elem_of_nil in H. contradiction.
  - cbn [dict_set]. destruct (decide (k' = k)) as [->|Hne].
    + rewrite !fmap_cons. cbn [fst].
      destruct (decide (k ∈ k :: d.*1)) as [_|H]; [reflexivity|].
      exfalso. apply H. left.
    + rewrite !fmap_cons, IH. cbn [fst].
      destruct (decide (k ∈ d.*1)) as [Hin|Hin];
        destruct (decide (k ∈ k' :: d.*1)) as [Hin'|Hin']; try reflexivity.
      * exfalso. apply Hin'. right. exact Hin.
      * exfalso. apply elem_of_cons in Hin' as [?|?]; [congruence | contradiction].
Qed.

Lemma dict_set_fresh d k v : k ∉ d.*1 → dict_set k v d = d ++ [(k, v)].
Proof.
  induction d as [|[k' v'] d IH]; simpl; intros Hk; [reflexivity|].
  apply not_elem_of_cons in Hk as [Hne Hk].
  rewrite decide_False by congruence. rewrite IH by exact Hk. reflexivity.
Qed.

Lemma dict_get_set d k v k' :
  dict_get k' (dict_set k v d) = if decide (k = k') then Some v else dict_get k' d.
Proof.
  induction d as [|[k0 v0] d IH]; simpl.
  - destruct (decide (k = k')); reflexivity.
  - destruct (decide (k0 = k)) as [->|Hne]; simpl.
    + destruct (decide (k = k')); reflexivity.
    + destruct (decide (k0 = k')) as [->|Hne'].
      * rewrite decide_False by congruence. reflexivity.
      * exact IH.
Qed.

Lemma dict_del_None d k : dict_del k d = None ↔ k ∉ d.*1.
Proof.
  induction d as [|[k' v'] d IH]; simpl.
  - split; [intros _; apply not_elem_of_nil | reflexivity].
  - rewrite not_elem_of_cons. destruct (decide (k' = k)) as [->|Hne].
    + split; [discriminate | intros [H _]; congruence].
    + rewrite fmap_None, IH.
      split; [intros H; split; [congruence | exact H] | intros [_ H]; exact H].
Qed.

Lemma dict_del_Some d k d' :
  dict_del k d = Some d' →
  ∃ d1 v d2, d = d1 ++ (k, v) :: d2 ∧ d' = d1 ++ d2 ∧ k ∉ d1.*1.
Proof.
  revert d'. induction d as [|[k' v'] d IH]; simpl; intros d'; [discriminate|].
  destruct (decide (k' = k)) as [->|Hne].
  - intros [= <-]. exists [], v', d. split_and!; [reflexivity.. | apply not_elem_of_nil].
  - intros H. apply fmap_Some in H as (d0 & Hd0 & ->).
    destruct (IH d0 Hd0) as (d1 & v & d2 & -> & -> & Hk).
    exists ((k', v') :: d1), v, d2. split_and!; [reflexivity..|].
    simpl. rewrite not_elem_of_cons. split; [congruence | exact Hk].
Qed.

(** A traversal yields the entries of the dict, each once, in their
    order. *)
Lemma drain_drop (n : nat) d (i : nat) :
  length d ≤ i + n → drain n (mkIter d i) = drop i d.
Proof.
  revert i. induction n as [|n IH]; intros i Hn; simpl.
  - rewrite drop_ge by lia. reflexivity.
  - unfold next. simpl. destruct (d !! i) as [kv|] eqn:Hi.
    + rewrite IH by lia. symmetry. apply drop_S. exact Hi.
    + rewrite drop_ge; [reflexivity|]. apply lookup_ge_None. exact Hi.
Qed.

Lemma traverse_entries d : traverse d = d.
Proof. unfold traverse, iter_items. rewrite drain_drop by lia. apply drop_0. Qed.

End pydict_facts.

(** ** Insertion order *)

Lemma StronglySorted_on {A} (R R' : relation A) (l : list A) :
  (∀ x y, x ∈ l → y ∈ l → R x y → R' x y) →
  StronglySorted R l → StronglySorted R' l.
Proof.
  intros HR Hl. induction Hl as [|a l Hl IH Ha]; [constructor|].
  constructor.
  - apply IH. intros x y Hx Hy. apply HR; right; assumption.
  - rewrite Forall_forall in Ha |- *. intros y Hy.
    apply HR; [left | right; exact Hy | apply Ha; exact Hy].
Qed.

Lemma StronglySorted_NoDup {A} (R : relation A) (l : list A) :
  (∀ x, ¬ R x x) → StronglySorted R l → NoDup l.
Proof.
  intros Hirr Hl. induction Hl as [|a l Hl IH Ha]; [constructor|].
  apply NoDup_cons. split; [|exact IH].
  intros Hin. rewrite Forall_forall in Ha. exact (Hirr a (Ha a Hin)).
Qed.

Lemma StronglySorted_lookup {A} (R : relation A) (l : list A) (i j : nat) (x y : A) :
  StronglySorted R l → i < j → l !! i = Some x → l !! j = Some y → R x y.
Proof.
  intros Hl Hij Hi Hj.
  rewrite <- (take_drop_middle l j y Hj) in Hl.
  apply (StronglySorted_app_1_elem_of R _ _ x y Hl).
  - apply elem_of_take. eauto.
  - left.
Qed.

Section insertion_order.
Context {V : Type}.
Implicit Types (d : pydict V) (k : pystr) (born : pystr → option nat).

Lemma born_before_irrefl born k : ¬ born_before born k k.
Proof. intros (t1 & t2 & H1 & H2 & Hlt). rewrite H1 in H2. injection H2 as ->. lia. Qed.

Lemma dict_inv_NoDup now born d : dict_inv now born d → NoDup d.*1.
Proof.
  intros [_ _ Hs]. eapply StronglySorted_NoDup; [apply born_before_irrefl | exact Hs].
Qed.

Lemma dict_inv_init : dict_inv 0 (λ _, None) ([] : pydict V).
Proof.
  split.
  - intros k. split; [intros H; apply elem_of_nil in H; contradiction|].
    intros [t Ht]. discriminate.
  - discriminate.
  - constructor.
Qed.

Lemma dict_inv_same now born born' d :
  (∀ k, born' k = born k) → dict_inv now born d → dict_inv (S now) born' d.
Proof.
  intros Hsame [Hlive Hpast Hsorted]. split.
  - intros k. rewrite Hsame. apply Hlive.
  - intros k t. rewrite Hsame. intros H. apply Hpast in H. lia.
  - eapply StronglySorted_on; [|exact Hsorted].
    intros x y _ _ (t1 & t2 & H1 & H2 & Hlt). exists t1, t2. rewrite !Hsame. auto.
Qed.

Lemma dict_inv_set now born d k v :
  dict_inv now born d → dict_inv (S now) (born_step (V:=V) now (DSet k v) born) (dict_set k v d).
Proof.
  intros Hinv. pose proof Hinv as [Hlive Hpast Hsorted].
  destruct (decide (k ∈ d.*1)) as [Hin|Hnin].
  - (* the key is there: nothing moves *)
    assert (Hkeys : (dict_set k v d).*1 = d.*1).
    { rewrite dict_set_keys, decide_True by exact Hin. reflexivity. }
    apply Hlive in Hin as [t Ht].
    assert (Hsame : ∀ x, born_step (V:=V) now (DSet k v) born x = born x).
    { intros x. unfold born_step. destruct (decide (k = x)) as [<-|]; [|reflexivity].
      rewrite Ht. reflexivity. }
    destruct (dict_inv_same now born _ d Hsame Hinv) as [Hl' Hp' Hs'].
    split; [intros x; rewrite Hkeys; apply Hl' | exact Hp' | rewrite Hkeys; exact Hs'].
  - (* a new key: it goes last, with the current time *)
    assert (Hkeys : (dict_set k v d).*1 = d.*1 ++ [k]).
    { rewrite dict_set_keys, decide_False by exact Hnin. reflexivity. }
    assert (Hk : born k = None).
    { destruct (born k) eqn:Hb; [|reflexivity]. exfalso. apply Hnin, Hlive. eauto. }
    assert (Hnew : born_step (V:=V) now (DSet k v) born k = Some now).
    { unfold born_step. rewrite decide_True by reflexivity. rewrite Hk. reflexivity. }
    assert (Hold : ∀ x, x ≠ k → born_step (V:=V) now (DSet k v) born x = born x).
    { intros x Hx. unfold born_step. rewrite decide_False by congruence. reflexivity. }
    split.
    + intros x. rewrite Hkeys, elem_of_app, list_elem_of_singleton.
      destruct (decide (x = k)) as [->|Hx].
      * rewrite Hnew. split; [eauto | right; reflexivity].
      * rewrite (Hold x Hx), <- Hlive. tauto.
    + intros x t. destruct (decide (x = k)) as [->|Hx].
      * rewrite Hnew. intros [= <-]. lia.
      * rewrite (Hold x Hx). intros H. apply Hpast in H. lia.
    + rewrite Hkeys. apply StronglySorted_app_2.
      * intros x1 x2 Hx1 Hx2. apply list_elem_of_singleton in Hx2 as ->.
        assert (x1 ≠ k) as Hne by (intros ->; contradiction).
        apply Hlive in Hx1 as [t1 Ht1]. exists t1, now.
        rewrite (Hold x1 Hne), Hnew. split_and!; [assumption | reflexivity | eauto].
      * eapply StronglySorted_on; [|exact Hsorted].
        intros x y Hx Hy (t1 & t2 & H1 & H2 & Hlt). exists t1, t2.
        rewrite !Hold by (intros ->; contradiction). auto.
      * repeat constructor.
Qed.

Lemma dict_inv_del now born d k :
  dict_inv now born d →
  dict_inv (S now) (born_step (V:=V) now (DDel k) born) (default d (dict_del k d)).
Proof.
  intros Hinv. pose proof Hinv as [Hlive Hpast Hsorted].
  pose proof (dict_inv_NoDup _ _ _ Hinv) as Hnd.
  destruct (dict_del k d) as [d'|] eqn:Hdel; simpl.
  - apply dict_del_Some in Hdel as (d1 & v & d2 & -> & -> & Hk1).
    rewrite fmap_app, fmap_cons in Hnd, Hsorted, Hlive. simpl in Hnd, Hsorted, Hlive.
    apply NoDup_app in Hnd as (_ & _ & Hnd2). apply NoDup_cons in Hnd2 as [Hk2 _].
    assert (Hgone : born_step (V:=V) now (DDel k) born k = None).
    { unfold born_step. rewrite decide_True by reflexivity. reflexivity. }
    assert (Hold : ∀ x, x ≠ k → born_step (V:=V) now (DDel k) born x = born x).
    { intros x Hx. unfold born_step. rewrite decide_False by congruence. reflexivity. }
    assert (Hne : ∀ x, x ∈ d1.*1 ++ d2.*1 → x ≠ k).
    { intros x Hx ->. apply elem_of_app in Hx as [?|?]; contradiction. }
    split; rewrite ?fmap_app.
    + intros x. destruct (decide (x = k)) as [->|Hx].
      * rewrite Hgone. split; [intros H; exfalso; exact (Hne k H eq_refl)|].
        intros [t Ht]. discriminate.
      * rewrite (Hold x Hx), <- Hlive, !elem_of_app, elem_of_cons. tauto.
    + intros x t. destruct (decide (x = k)) as [->|Hx].
      * rewrite Hgone. discriminate.
      * rewrite (Hold x Hx). intros H. apply Hpast in H. lia.
    + apply StronglySorted_app in Hsorted as (Hcross & Hs1 & Hs2).
      apply StronglySorted_cons in Hs2 as [_ Hs2].
      eapply (StronglySorted_on (born_before born)).
      * intros x y Hx Hy (t1 & t2 & H1 & H2 & Hlt). exists t1, t2.
        rewrite !Hold by (apply Hne; assumption). auto.
      * apply StronglySorted_app_2; [|assumption..].
        intros x1 x2 Hx1 Hx2. apply Hcross; [assumption | right; assumption].
  - apply dict_del_None in Hdel.
    apply (dict_inv_same now born); [|exact Hinv].
    intros x. unfold born_step. destruct (decide (k = x)) as [<-|]; [|reflexivity].
    destruct (born k) eqn:Hb; [|reflexivity]. exfalso. apply Hdel, Hlive. eauto.
Qed.

Lemma dict_inv_run (cs : list (dict_call V)) now born d :
  dict_inv now born d →
  dict_inv (now + length cs) (λ k, inserted_from now (born k) cs k) (dict_run cs d).
Proof.
  revert now born d. induction cs as [|c cs IH]; intros now born d Hinv.
  - simpl. rewrite Nat.add_0_r. destruct Hinv. split; assumption.
  - assert (Hstep : dict_inv (S now) (born_step now c born) (dict_exec c d)).
    { destruct c as [k v|k]; [apply dict_inv_set | apply dict_inv_del]; exact Hinv. }
    apply IH in Hstep. simpl length. rewrite Nat.add_succ_r.
    destruct Hstep as [Hl Hp Hs].
    assert (Heq : ∀ k, inserted_from now (born k) (c :: cs) k
                       = inserted_from (S now) (born_step now c born k) cs k).
    { intros k. destruct c; reflexivity. }
    split.
    + intros k. rewrite Heq. apply Hl.
    + intros k t. rewrite Heq. apply Hp.
    + eapply StronglySorted_on; [|exact Hs].
      intros x y _ _ (t1 & t2 & H1 & H2 & Hlt). exists t1, t2. rewrite !Heq. auto.
Qed.

(** The dict a sequence of calls builds lists its keys in the order of
    their insertion times. *)
Lemma dict_run_order (cs : list (dict_call V)) :
  dict_inv (length cs) (inserted_at cs) (dict_run cs []).
Proof. exact (dict_inv_run cs 0 (λ _, None) [] dict_inv_init). Qed.

End insertion_order.

(** ** The world: what a call changes *)

Lemma exec_book (c : call) (w : World) :
  data (book (exec c w)) = dict_run (book_call c w) (data (book w)).
Proof.
  destruct c as [n|a v|a v|a old new|a|nm]; simpl.
  - unfold new_record. destruct (Record_init n); reflexivity.
  - unfold on_record. destruct (heap w !! a); [destruct (add_phone v _)|]; reflexivity.
  - unfold on_record. destruct (heap w !! a); [destruct (remove_phone v _)|]; reflexivity.
  - unfold on_record. destruct (heap w !! a); [destruct (edit_phone old new _)|]; reflexivity.
  - unfold Book.add_record. destruct (heap w !! a); reflexivity.
  - unfold Book.delete. destruct (dict_del nm (data (book w))); reflexivity.
Qed.

Lemma run_book (cs : list call) (w : World) :
  data (book (run cs w)) = dict_run (book_trace cs w) (data (book w)).
Proof.
  revert w. induction cs as [|c cs IH]; intros w; [reflexivity|].
  simpl. unfold dict_run. rewrite foldl_app. fold (dict_run (book_call c w) (data (book w))).
  rewrite <- exec_book. apply IH.
Qed.

Lemma add_phone_name (v : pystr) (r : ContactRecord) : name (snd (add_phone v r)) = name r.
Proof.
  rewrite add_phone_eq. destruct (Phone_init v); [reflexivity|].
  destruct (existsb _ _); reflexivity.
Qed.

Lemma remove_phone_name (v : pystr) (r : ContactRecord) :
  name (snd (remove_phone v r)) = name r.
Proof. rewrite remove_phone_eq. destruct (list_find _ _) as [[i p]|]; reflexivity. Qed.

Lemma edit_phone_name (old new : pystr) (r : ContactRecord) :
  name (snd (edit_phone old new r)) = name r.
Proof.
  rewrite edit_phone_eq. destruct (list_find _ _) as [[i p]|]; [|reflexivity].
  destruct (Phone_init new); reflexivity.
Qed.

Lemma strip_is_trimmed (s : pystr) : trimmed (strip s).
Proof. destruct (strip_trimmed s) as (pre & post & _ & _ & _ & Hh & Hl). split; assumption. Qed.

Lemma padded_not_trimmed (s : pystr) : padded s → ¬ trimmed s.
Proof.
  intros [(c & Hc & Hsp)|(c & Hc & Hsp)] [Hh Hl];
    [apply Hh in Hc | apply Hl in Hc]; congruence.
Qed.

Lemma Record_init_inv (s : pystr) (r : ContactRecord) :
  Record_init s = inr r → r = mkRecord (mkField (strip s)) [].
Proof.
  unfold Record_init, Name_init. rewrite or_empty_id.
  destruct (strip s); [discriminate|]. intros [= <-]. reflexivity.
Qed.

Lemma dict_set_elem {V} (d : pydict V) (k : pystr) (v : V) (kv : pystr * V) :
  kv ∈ dict_set k v d → kv = (k, v) ∨ kv ∈ d.
Proof.
  induction d as [|[k' v'] d IH]; simpl.
  - intros H. apply list_elem_of_singleton in H. left. exact H.
  - destruct (decide (k' = k)) as [->|Hne]; intros H.
    + apply elem_of_cons in H as [H|H]; [left; exact H | right; right; exact H].
    + apply elem_of_cons in H as [->|H]; [right; left|].
      destruct (IH H) as [?|?]; [left; assumption | right; right; assumption].
Qed.

Lemma on_record_inv {A} (a : ref) (m : M A) (w : World) :
  (∀ r, name (snd (m r)) = name r) →
  world_inv w → world_inv (snd (on_record a m w)).
Proof.
  intros Hname [Hnames Hkeys]. unfold on_record.
  destruct (heap w !! a) as [r|] eqn:Ha; [|split; assumption].
  specialize (Hname r). destruct (m r) as [x r']. simpl in *. split; simpl.
  - intros a0 r0 H. apply list_lookup_insert_Some in H as [(<- & <- & _)|[_ H]].
    + rewrite Hname. eapply Hnames. exact Ha.
    + eapply Hnames. exact H.
  - intros k a0 Hin. destruct (Hkeys k a0 Hin) as (r0 & Hr0 & Hk).
    destruct (decide (a0 = a)) as [->|Hne].
    + exists r'. rewrite list_lookup_insert_eq by (eapply lookup_lt_Some; exact Ha).
      split; [reflexivity|]. rewrite Hname. congruence.
    + exists r0. rewrite list_lookup_insert_ne by congruence. auto.
Qed.

Lemma exec_inv (c : call) (w : World) : world_inv w → world_inv (exec c w).
Proof.
  intros Hinv. destruct c as [n|a v|a v|a old new|a|nm]; simpl.
  - destruct Hinv as [Hnames Hkeys]. unfold new_record.
    destruct (Record_init n) as [e|r] eqn:Hr; [split; assumption|].
    apply Record_init_inv in Hr as ->. split; simpl.
    + intros a r H. apply lookup_app_Some in H as [H|[_ H]]; [eapply Hnames; exact H|].
      apply list_lookup_singleton_Some in H as [_ <-]. apply strip_is_trimmed.
    + intros k a Hin. destruct (Hkeys k a Hin) as (r & Hr & Hk).
      exists r. split; [apply lookup_app_l_Some; exact Hr | exact Hk].
  - apply on_record_inv; [apply add_phone_name | exact Hinv].
  - apply on_record_inv; [apply remove_phone_name | exact Hinv].
  - apply on_record_inv; [apply edit_phone_name | exact Hinv].
  - destruct Hinv as [Hnames Hkeys]. unfold Book.add_record.
    destruct (heap w !! a) as [r|] eqn:Ha; [|split; assumption].
    split; simpl; [exact Hnames|].
    intros k a0 Hin. apply dict_set_elem in Hin as [[= -> ->]|Hin]; eauto.
  - destruct Hinv as [Hnames Hkeys]. unfold Book.delete.
    destruct (dict_del nm (data (book w))) as [d'|] eqn:Hdel; [|split; assumption].
    split; simpl; [exact Hnames|].
    apply dict_del_Some in Hdel as (d1 & v & d2 & Hd & -> & _).
    intros k a Hin. apply Hkeys. rewrite Hd.
    apply elem_of_app in Hin as [?|?]; apply elem_of_app; [left | right; right]; assumption.
Qed.

Lemma run_inv (cs : list call) (w : World) : world_inv w → world_inv (run cs w).
Proof.
  revert w. induction cs as [|c cs IH]; intros w Hinv; [exact Hinv|].
  simpl. apply IH, exec_inv, Hinv.
Qed.

Lemma empty_world_inv : world_inv empty_world.
Proof.
  split; simpl.
  - intros a r H. rewrite lookup_nil in H. discriminate.
  - intros k a H. apply elem_of_nil in H. contradiction.
Qed.

(** ** Missing targets *)

(** C5: when no phone of the record equals the normalization of [raw] and
    [nm] is not a key of the book, [remove_phone], [edit_phone] and
    [delete] raise the not-found error ([KeyError]) and change nothing,
    while [find] and [find_phone] return [None] without raising. *)
Theorem missing_target (r : ContactRecord) (raw new : pystr) (w : World) (nm : pystr) :
  (∀ p, p ∈ phones r → value p ≠ digits_of raw) →
  nm ∉ (data (book w)).*1 →
  remove_phone raw r = (inl (KeyError raw), r) ∧
  edit_phone raw new r = (inl (KeyError raw), r) ∧
  Book.delete nm w = (inl (KeyError nm), w) ∧
  Book.find nm w = None ∧
  find_phone raw r = (inr None, r).
Proof.
  intros Hraw Hnm. apply find_absent in Hraw.
  rewrite remove_phone_eq, edit_phone_eq, find_phone_eq, Hraw.
  apply dict_del_None in Hnm as Hdel. apply dict_get_None in Hnm as Hget.
  unfold Book.delete, Book.find. rewrite Hdel, Hget. repeat split.
Qed.

Lemma missing_target_witness :
  remove_phone (lit "000") john = (inl (KeyError (lit "000")), john) ∧
  edit_phone (lit "000") (lit "1112223333") john = (inl (KeyError (lit "000")), john) ∧
  Book.delete (lit "Bob") (run driver empty_world)
  = (inl (KeyError (lit "Bob")), run driver empty_world) ∧
  Book.find (lit "Bob") (run driver empty_world) = None ∧
  find_phone (lit "000") john = (inr None, john).
Proof.
  apply missing_target.
  - intros p Hp. apply list_elem_of_In in Hp. vm_compute in Hp.
    destruct Hp as [<-|[<-|[]]]; vm_compute; discriminate.
  - intros H. apply list_elem_of_In in H. vm_compute in H.
    destruct H as [H|[H|[]]]; discriminate H.
Defined.

(** ** Iterating over the book *)

(** C8: after any sequence of calls, a traversal of the book yields the
    entries of its dict: every key once, with the record [find] returns
    for it, the keys in the order of their insertion.  Adding a record
    under a key that is there replaces the record and moves no key; under
    a new key, it adds the entry at the end.  The traversal is a function
    of the book alone, so another traversal yields the same sequence. *)
Theorem book_items_insertion_order (cs : list call) :
  let w := run cs empty_world in
  let trace := book_trace cs empty_world in
  let keys := (book_items w).*1 in
  book_items w = data (book w) ∧
  NoDup keys ∧
  (∀ k a, (k, a) ∈ book_items w ↔ Book.find k w = Some a) ∧
  (∀ k, k ∈ keys ↔ is_Some (inserted_at trace k)) ∧
  (∀ i j ki kj, i < j → keys !! i = Some ki → keys !! j = Some kj →
     ∃ ti tj, inserted_at trace ki = Some ti ∧
              inserted_at trace kj = Some tj ∧ ti < tj) ∧
  (∀ a r, heap w !! a = Some r →
     let w' := Book.add_record a w in
     Book.find (value (name r)) w' = Some a ∧
     (∀ k, k ≠ value (name r) → Book.find k w' = Book.find k w) ∧
     if decide (value (name r) ∈ keys)
     then (book_items w').*1 = keys
     else book_items w' = book_items w ++ [(value (name r), a)]).
Proof.
  cbv zeta. unfold book_items. rewrite traverse_entries.
  pose proof (dict_run_order (book_trace cs empty_world)) as Hinv.
  pose proof (run_book cs empty_world) as Hrun.
  change (data (book empty_world)) with ([] : pydict ref) in Hrun.
  rewrite <- Hrun in Hinv. clear Hrun.
  pose proof (dict_inv_NoDup _ _ _ Hinv) as Hnd.
  destruct Hinv as [Hlive _ Hsorted]. split_and!.
  - reflexivity.
  - exact Hnd.
  - intros k a. unfold Book.find. split; [apply dict_get_elem; exact Hnd|].
    apply dict_get_Some_elem.
  - exact Hlive.
  - intros i j ki kj Hij Hi Hj.
    exact (StronglySorted_lookup _ _ i j ki kj Hsorted Hij Hi Hj).
  - intros a r Ha. unfold Book.add_record, Book.find. rewrite Ha. simpl.
    rewrite traverse_entries. split_and!.
    + rewrite dict_get_set, decide_True by reflexivity. reflexivity.
    + intros k Hk. rewrite dict_get_set, decide_False by congruence. reflexivity.
    + destruct (decide (value (name r) ∈ _)) as [Hin|Hnin].
      * rewrite dict_set_keys, decide_True by exact Hin. reflexivity.
      * apply dict_set_fresh. exact Hnin.
Qed.

(** ** Keys and names *)

(** C10: after any sequence of calls, every key of the book is the name
    of the record stored under it.  A record made from a string that
    starts or ends with whitespace gets the trimmed name, and once it is
    added [find] returns [None] for the string as given and the record for
    the trimmed string. *)
Theorem book_keys_are_names (cs : list call) (s : pystr) (r : ContactRecord) :
  let w := run cs empty_world in
  (∀ k a, Book.find k w = Some a →
     ∃ r', heap w !! a = Some r' ∧ value (name r') = k) ∧
  (padded s → Record_init s = inr r →
     let a := length (heap w) in
     let w1 := snd (new_record s w) in
     let w2 := Book.add_record a w1 in
     fst (new_record s w) = inr a ∧
     heap w2 !! a = Some r ∧
     value (name r) = strip s ∧
     Book.find s w2 = None ∧
     Book.find (strip s) w2 = Some a).
Proof.
  cbv zeta. pose proof (run_inv cs empty_world empty_world_inv) as [Hnames Hkeys].
  set (w := run cs empty_world) in *. split.
  - intros k a Hfind. apply Hkeys. apply dict_get_Some_elem. exact Hfind.
  - intros Hpad Hinit. unfold new_record. rewrite Hinit. simpl.
    apply Record_init_inv in Hinit as Hr. subst r.
    unfold Book.add_record, Book.find. simpl.
    assert (Ha : (heap w ++ [mkRecord (mkField (strip s)) []]) !! length (heap w)
                 = Some (mkRecord (mkField (strip s)) [])).
    { rewrite lookup_app_r by lia. rewrite Nat.sub_diag. reflexivity. }
    rewrite Ha. simpl. split_and!; try reflexivity.
    + exact Ha.
    + rewrite dict_get_set, decide_False.
      * destruct (dict_get s (data (book w))) as [a|] eqn:Hget; [|reflexivity].
        exfalso. apply dict_get_Some_elem, Hkeys in Hget as (r' & Hr' & Hk).
        apply (padded_not_trimmed s Hpad). rewrite <- Hk. eapply Hnames. exact Hr'.
      * intros Heq. apply (padded_not_trimmed s Hpad). rewrite <- Heq.
        apply strip_is_trimmed.
    + rewrite dict_get_set, decide_True by reflexivity. reflexivity.
Qed.

Lemma book_keys_are_names_witness :
  let s := lit " Ann " in
  let w := run driver empty_world in
  let w2 := Book.add_record 2 (snd (new_record s w)) in
  padded s ∧
  Record_init s = inr (mkRecord (mkField (lit "Ann")) []) ∧
  Book.find s w2 = None ∧
  Book.find (strip s) w2 = Some 2.
Proof.
  cbv zeta.
  assert (Hpad : padded (lit " Ann ")).
  { left. exists 32%N. split; reflexivity. }
  assert (Hinit : Record_init (lit " Ann ") = inr (mkRecord (mkField (lit "Ann")) []))
    by reflexivity.
  split_and!; [exact Hpad | exact Hinit | |];
    apply (proj2 (book_keys_are_names driver (lit " Ann ") _) Hpad Hinit).
Defined.

(** ** The scenario of the driver *)

Example driver_items :
  book_items (run driver empty_world) = [(lit "John", 0); (lit "Jane", 1)].
Proof. vm_compute. reflexivity. Qed.

Example driver_john_str :
  Record_str <$> heap (run driver empty_world) !! 0
  = Some (lit "Contact name: John, phones: 1234567890; 5555555555").
Proof. vm_compute. reflexivity. Qed.

(** [book.find("John").edit_phone("1234567890", "1112223333")] changes the
    record the book holds. *)
Example driver_edit_through_book :
  let w := run driver empty_world in
  match Book.find (lit "John") w with
  | Some a =>
      let w' := snd (on_record a (edit_phone (lit "1234567890") (lit "1112223333")) w) in
      Record_str <$> (Book.find (lit "John") w' ≫= λ a', heap w' !! a')
      = Some (lit "Contact name: John, phones: 1112223333; 5555555555")
  | None => False
  end.
Proof. vm_compute. reflexivity. Qed.

Example driver_delete_jane :
  let w := snd (Book.delete (lit "Jane") (run driver empty_world)) in
  Book.find (lit "Jane") w = None ∧ book_items w = [(lit "John", 0)].
Proof. vm_compute. split; reflexivity. Qed.

Example replace_keeps_position :
  book_items (run (driver ++ [New (lit " John "); AddRecord 2]) empty_world)
  = [(lit "John", 2); (lit "Jane", 1)].
Proof. vm_compute. reflexivity. Qed.

Example delete_then_add_goes_last :
  book_items (run (driver ++ [Delete (lit "John"); AddRecord 0]) empty_world)
  = [(lit "Jane", 1); (lit "John", 0)].
Proof. vm_compute. reflexivity. Qed.

(** * Further properties of the methods *)

(** ** Normalization is idempotent *)

Lemma filter_all {A} (f : A → bool) (l : list A) :
  Forall (λ x, f x = true) l → List.filter f l = l.
Proof. induction 1 as [|x l Hx _ IH]; simpl; [|rewrite Hx, IH]; reflexivity. Qed.

Lemma digits_of_idemp (s : pystr) : digits_of (digits_of s) = digits_of s.
Proof. apply filter_all, digits_of_isdigit. Qed.

(** The value a [Phone] stores is accepted by [Phone] again, and gives the
    same phone: a stored number can be handed back to every method. *)
Theorem Phone_init_value_roundtrip (s : pystr) (p : Phone) :
  Phone_init s = inr p → Phone_init (value p) = inr p.
Proof.
  intros Hp. destruct (decide (length (digits_of s) = 10)) as [Hlen|Hlen].
  - rewrite (Phone_init_ok s Hlen) in Hp. injection Hp as <-. simpl.
    rewrite <- digits_of_idemp at 2. apply Phone_init_ok.
    rewrite digits_of_idemp. exact Hlen.
  - rewrite (Phone_init_error s Hlen) in Hp. discriminate.
Qed.

Lemma Phone_init_value_roundtrip_witness :
  Phone_init (lit "1234567890") = inr (mkField (lit "1234567890")).
Proof. exact (Phone_init_value_roundtrip (lit "(123) 456-7890") _ eq_refl). Defined.

Lemma lstrip_trimmed (v : pystr) :
  (∀ c, head v = Some c → isspace c = false) → lstrip v = v.
Proof.
  destruct v as [|c v]; [reflexivity|]. intros H. simpl.
  rewrite (H c eq_refl). reflexivity.
Qed.

Lemma strip_of_trimmed (v : pystr) : trimmed v → strip v = v.
Proof.
  intros [Hh Hl]. unfold strip, rstrip. rewrite (lstrip_trimmed v Hh).
  rewrite lstrip_trimmed; [apply reverse_involutive|].
  intros c Hc. apply Hl. rewrite <- Hc. symmetry. apply head_reverse.
Qed.

(** The value a [Name] stores is accepted by [Name] again, unchanged:
    trimming a trimmed name does nothing. *)
Theorem Name_init_value_roundtrip (s : pystr) (n : Name) :
  Name_init s = inr n → Name_init (value n) = inr n.
Proof.
  unfold Name_init at 1. rewrite or_empty_id.
  destruct (strip s) as [|c v] eqn:Hs; [discriminate|]. intros [= <-]. simpl.
  rewrite <- Hs. rewrite Name_init_ok; rewrite (strip_of_trimmed _ (strip_is_trimmed s)).
  - reflexivity.
  - rewrite Hs. discriminate.
Qed.

Lemma Name_init_value_roundtrip_witness :
  Name_init (lit "John Smith") = inr (mkField (lit "John Smith")).
Proof. exact (Name_init_value_roundtrip (lit "  John Smith ") _ eq_refl). Defined.

(** ** Whitespace around a name does not count *)

Lemma lstrip_app_space (pre t : pystr) :
  Forall (λ c, isspace c = true) pre → lstrip (pre ++ t) = lstrip t.
Proof. induction 1 as [|c pre Hc _ IH]; simpl; [|rewrite Hc]; auto. Qed.

Lemma rstrip_app_space (t post : pystr) :
  Forall (λ c, isspace c = true) post → rstrip (t ++ post) = rstrip t.
Proof.
  intros H. unfold rstrip. rewrite reverse_app, lstrip_app_space; [reflexivity|].
  apply Forall_reverse. exact H.
Qed.

Lemma lstrip_app (s t : pystr) :
  lstrip (s ++ t) = match lstrip s with [] => lstrip t | _ => lstrip s ++ t end.
Proof.
  induction s as [|c s IH]; simpl; [reflexivity|].
  destruct (isspace c); [exact IH | reflexivity].
Qed.

Lemma strip_padding (pre s post : pystr) :
  Forall (λ c, isspace c = true) pre → Forall (λ c, isspace c = true) post →
  strip (pre ++ s ++ post) = strip s.
Proof.
  intros Hpre Hpost. unfold strip.
  rewrite (lstrip_app_space pre _ Hpre), lstrip_app, (lstrip_all_space post Hpost).
  destruct (lstrip s) as [|c t]; [reflexivity|].
  apply rstrip_app_space. exact Hpost.
Qed.

(** Whitespace put before and after a string changes nothing for [Name]:
    the same name is stored, or the same error raised, so two records
    whose names differ in such whitespace only go under one key of the
    book. *)
Theorem Name_init_padding (pre s post : pystr) :
  Forall (λ c, isspace c = true) pre → Forall (λ c, isspace c = true) post →
  Name_init (pre ++ s ++ post) = Name_init s ∧
  Record_init (pre ++ s ++ post) = Record_init s.
Proof.
  intros Hpre Hpost.
  assert (H : Name_init (pre ++ s ++ post) = Name_init s).
  { unfold Name_init. rewrite !or_empty_id, (strip_padding pre s post Hpre Hpost).
    reflexivity. }
  split; [exact H|]. unfold Record_init. rewrite H. reflexivity.
Qed.

Lemma Name_init_padding_witness :
  Name_init (lit "  " ++ lit "Ann Lee" ++ [9%N; 10%N]) = Name_init (lit "Ann Lee") ∧
  Record_init (lit "  " ++ lit "Ann Lee" ++ [9%N; 10%N]) = Record_init (lit "Ann Lee").
Proof. apply Name_init_padding; repeat constructor. Defined.

(** ** What [add_phone] does *)

Lemma existsb_value_true (v : pystr) (ps : list Phone) :
  v ∈ value <$> ps → existsb (λ p, bool_decide (value p = v)) ps = true.
Proof.
  intros Hin. apply list_elem_of_fmap in Hin as (p & -> & Hp).
  apply existsb_exists. exists p. split; [apply list_elem_of_In; exact Hp|].
  apply bool_decide_eq_true_2. reflexivity.
Qed.

(** [add_phone] has three outcomes: a string that does not normalize to
    ten digits raises [ValueError] and changes nothing, stored or not; a
    valid number the record holds is ignored; any other valid number is
    appended after the phones there are, which stay as they were. *)
Theorem add_phone_outcomes (r : ContactRecord) (raw : pystr) :
  let v := digits_of raw in
  (length v ≠ 10 →
     is_ValueError (fst (add_phone raw r)) ∧ then_ r (add_phone raw) = r) ∧
  (length v = 10 → v ∈ value <$> phones r → add_phone raw r = (inr tt, r)) ∧
  (length v = 10 → v ∉ value <$> phones r →
     add_phone raw r = (inr tt, mkRecord (name r) (phones r ++ [mkField v]))).
Proof.
  cbv zeta. unfold then_. rewrite add_phone_eq. split_and!.
  - intros Hlen. rewrite (Phone_init_error raw Hlen). split; [exact I | reflexivity].
  - intros Hlen Hin. rewrite (Phone_init_ok raw Hlen). simpl.
    rewrite (existsb_value_true _ _ Hin). reflexivity.
  - intros Hlen Hnin. rewrite (Phone_init_ok raw Hlen). simpl.
    destruct (existsb _ _) eqn:Hex; [|reflexivity].
    exfalso. apply Hnin. apply existsb_exists in Hex as (p & Hp & Heq).
    apply bool_decide_eq_true_1 in Heq. rewrite <- Heq.
    apply list_elem_of_fmap_2, list_elem_of_In. exact Hp.
Qed.

Lemma add_phone_outcomes_witness :
  (is_ValueError (fst (add_phone (lit "12-34") john))
   ∧ then_ john (add_phone (lit "12-34")) = john)
  ∧ add_phone (lit "555 555 5555") john = (inr tt, john)
  ∧ add_phone (lit "(987) 654-3210") john
    = (inr tt, mkRecord (name john) (phones john ++ [mkField (lit "9876543210")])).
Proof.
  split; [|split].
  - apply (proj1 (add_phone_outcomes john (lit "12-34"))). vm_compute. discriminate.
  - apply (proj1 (proj2 (add_phone_outcomes john (lit "555 555 5555")))).
    + reflexivity.
    + vm_compute. right. left.
  - apply (proj2 (proj2 (add_phone_outcomes john (lit "(987) 654-3210")))).
    + reflexivity.
    + vm_compute. intros H. apply list_elem_of_In in H. simpl in H.
      destruct H as [H|[H|[]]]; discriminate H.
Defined.

(** After [add_phone] of a valid number, [find_phone] finds a phone with
    its value, whatever the format of the string searched with and whether
    the number was new or already there. *)
Theorem add_phone_then_find (r : ContactRecord) (raw raw' : pystr) :
  length (digits_of raw) = 10 → digits_of raw' = digits_of raw →
  ∃ i p, fst (find_phone raw' (then_ r (add_phone raw))) = inr (Some (i, p))
         ∧ value p = digits_of raw.
Proof.
  intros Hlen Hsame. rewrite find_phone_eq, Hsame. simpl.
  assert (Hin : ∃ p, p ∈ phones (then_ r (add_phone raw)) ∧ value p = digits_of raw).
  { unfold then_. rewrite add_phone_eq, (Phone_init_ok raw Hlen). simpl.
    destruct (existsb _ _) eqn:Hex; simpl.
    - apply existsb_exists in Hex as (p & Hp & Heq).
      apply bool_decide_eq_true_1 in Heq. exists p.
      split; [apply list_elem_of_In; exact Hp | exact Heq].
    - exists (mkField (digits_of raw)). split; [|reflexivity].
      apply elem_of_app. right. left. }
  destruct (find_present _ _ Hin) as (i & p & Hfind). exists i, p.
  rewrite Hfind. split; [reflexivity|].
  apply list_find_Some in Hfind as (_ & Hp & _). exact Hp.
Qed.

Lemma add_phone_then_find_witness :
  ∃ i p, fst (find_phone (lit "987.654.3210")
                (then_ john (add_phone (lit "(987) 654-3210")))) = inr (Some (i, p))
         ∧ value p = digits_of (lit "(987) 654-3210").
Proof. apply add_phone_then_find; reflexivity. Defined.

(** ** What [edit_phone] does *)

(** A successful [edit_phone] changes the first phone that matches [old],
    where it stands: the list keeps its length, that position holds the
    normalization of [new], and every other position holds what it held. *)
Theorem edit_phone_in_place (r : ContactRecord) (old new : pystr) :
  (∃ p, p ∈ phones r ∧ value p = digits_of old) →
  length (digits_of new) = 10 →
  ∃ i p,
    phones r !! i = Some p ∧ value p = digits_of old ∧
    (∀ j q, j < i → phones r !! j = Some q → value q ≠ digits_of old) ∧
    edit_phone old new r
    = (inr tt, mkRecord (name r) (<[i := mkField (digits_of new)]> (phones r))) ∧
    length (phones (then_ r (edit_phone old new))) = length (phones r) ∧
    phones (then_ r (edit_phone old new)) !! i = Some (mkField (digits_of new)) ∧
    (∀ j, j ≠ i → phones (then_ r (edit_phone old new)) !! j = phones r !! j).
Proof.
  intros Hold Hnew. destruct (find_present _ _ Hold) as (i & p & Hfind).
  unfold then_. rewrite edit_phone_eq, Hfind, (Phone_init_ok new Hnew). simpl.
  apply list_find_Some in Hfind as (Hi & Hp & Hfirst).
  exists i, p. split_and!; try assumption.
  - intros j q Hj Hq. exact (Hfirst j q Hq Hj).
  - reflexivity.
  - apply length_insert.
  - apply list_lookup_insert_eq. eapply lookup_lt_Some. exact Hi.
  - intros j Hj. apply list_lookup_insert_ne. congruence.
Qed.

Lemma edit_phone_in_place_witness :
  ∃ i p,
    phones john !! i = Some p ∧ value p = digits_of (lit "555-555-5555") ∧
    (∀ j q, j < i → phones john !! j = Some q → value q ≠ digits_of (lit "555-555-5555")) ∧
    edit_phone (lit "555-555-5555") (lit "111 222 3333") john
    = (inr tt, mkRecord (name john)
                 (<[i := mkField (digits_of (lit "111 222 3333"))]> (phones john))) ∧
    length (phones (then_ john (edit_phone (lit "555-555-5555") (lit "111 222 3333"))))
    = length (phones john) ∧
    phones (then_ john (edit_phone (lit "555-555-5555") (lit "111 222 3333"))) !! i
    = Some (mkField (digits_of (lit "111 222 3333"))) ∧
    (∀ j, j ≠ i →
       phones (then_ john (edit_phone (lit "555-555-5555") (lit "111 222 3333"))) !! j
       = phones john !! j).
Proof.
  apply edit_phone_in_place; [|reflexivity].
  exists (mkField (lit "5555555555")). split; [|reflexivity].
  vm_compute. right. left.
Defined.

(** Editing a phone into another writing of the same number changes
    nothing: the call returns and the record is the one before. *)
Theorem edit_phone_same_number (r : ContactRecord) (old new : pystr) :
  (∃ p, p ∈ phones r ∧ value p = digits_of old) →
  length (digits_of new) = 10 →
  digits_of new = digits_of old →
  edit_phone old new r = (inr tt, r).
Proof.
  intros Hold Hnew Hsame. destruct (find_present _ _ Hold) as (i & p & Hfind).
  rewrite edit_phone_eq, Hfind, (Phone_init_ok new Hnew). simpl.
  apply list_find_Some in Hfind as (Hi & Hp & _).
  rewrite list_insert_id.
  - destruct r. reflexivity.
  - rewrite Hi, Hsame, <- Hp. destruct p. reflexivity.
Qed.

Lemma edit_phone_same_number_witness :
  edit_phone (lit "123-456-7890") (lit "(123) 456 7890") john = (inr tt, john).
Proof.
  apply edit_phone_same_number; [|reflexivity..].
  exists (mkField (lit "1234567890")). split; [|reflexivity].
  vm_compute. left.
Defined.

(** ** Looking a number up after it was removed or edited *)

Lemma NoDup_delete_lookup {A} (l : list A) (i : nat) (x : A) :
  NoDup l → l !! i = Some x → x ∉ delete i l.
Proof.
  intros Hnd Hi. rewrite <- (take_drop_middle l i x Hi) in Hnd.
  apply NoDup_app in Hnd as (_ & Hcross & Hnd). apply NoDup_cons in Hnd as [Hx _].
  rewrite delete_take_drop. intros Hin. apply elem_of_app in Hin as [Hin|Hin].
  - apply (Hcross x Hin). left.
  - contradiction.
Qed.

(** On a record without duplicates, [remove_phone] of a stored number
    takes one phone away, the number is then no longer found, and the
    record is still without duplicates. *)
Theorem remove_phone_then_find (r : ContactRecord) (raw : pystr) :
  no_duplicate_phones r →
  (∃ p, p ∈ phones r ∧ value p = digits_of raw) →
  fst (remove_phone raw r) = inr tt ∧
  fst (find_phone raw (then_ r (remove_phone raw))) = inr None ∧
  S (length (phones (then_ r (remove_phone raw)))) = length (phones r) ∧
  no_duplicate_phones (then_ r (remove_phone raw)).
Proof.
  intros Hnd Hraw. pose proof (remove_phone_no_duplicates raw r Hnd) as Hnd'.
  destruct (find_present _ _ Hraw) as (i & p & Hfind).
  assert (Hr : remove_phone raw r = (inr tt, mkRecord (name r) (delete i (phones r))))
    by (rewrite remove_phone_eq, Hfind; reflexivity).
  unfold then_ in *. rewrite Hr in *. cbn [fst snd phones] in *.
  apply list_find_Some in Hfind as (Hi & Hp & _).
  split_and!; [reflexivity | | | exact Hnd'].
  - rewrite find_phone_eq. cbn [fst phones]. rewrite find_absent; [reflexivity|].
    intros q Hq Hv. unfold no_duplicate_phones in Hnd.
    apply (NoDup_delete_lookup (value <$> phones r) i (digits_of raw) Hnd).
    + rewrite list_lookup_fmap, Hi. simpl. congruence.
    + rewrite <- list_fmap_delete, <- Hv. apply list_elem_of_fmap_2. exact Hq.
  - rewrite length_delete by eauto.
    apply lookup_lt_Some in Hi. lia.
Qed.

Lemma remove_phone_then_find_witness :
  fst (remove_phone (lit "123 456 7890") john) = inr tt ∧
  fst (find_phone (lit "123 456 7890") (then_ john (remove_phone (lit "123 456 7890"))))
  = inr None ∧
  S (length (phones (then_ john (remove_phone (lit "123 456 7890")))))
  = length (phones john) ∧
  no_duplicate_phones (then_ john (remove_phone (lit "123 456 7890"))).
Proof.
  apply remove_phone_then_find.
  - apply add_phone_no_duplicates, add_phone_no_duplicates, NoDup_nil_2.
  - exists (mkField (lit "1234567890")). split; [|reflexivity]. vm_compute. left.
Defined.

(** On a record without duplicates, a successful [edit_phone] into a
    number the record does not hold yet moves the lookup with it: the new
    number is found at the position where the old one stood, the old
    number is no longer found, and the record is still without
    duplicates. *)
Theorem edit_phone_then_find (r : ContactRecord) (old new : pystr) :
  no_duplicate_phones r →
  (∃ p, p ∈ phones r ∧ value p = digits_of old) →
  length (digits_of new) = 10 →
  digits_of new ∉ value <$> phones r →
  ∃ i p,
    fst (find_phone old r) = inr (Some (i, p)) ∧
    fst (edit_phone old new r) = inr tt ∧
    fst (find_phone new (then_ r (edit_phone old new)))
    = inr (Some (i, mkField (digits_of new))) ∧
    fst (find_phone old (then_ r (edit_phone old new))) = inr None ∧
    no_duplicate_phones (then_ r (edit_phone old new)).
Proof.
  intros Hnd Hold Hnew Hfresh.
  pose proof (edit_phone_no_duplicates old new r Hfresh Hnd) as Hnd'.
  destruct (find_present _ _ Hold) as (i & p & Hfind). exists i, p.
  assert (Hr : edit_phone old new r
               = (inr tt, mkRecord (name r) (<[i := mkField (digits_of new)]> (phones r))))
    by (rewrite edit_phone_eq, Hfind, (Phone_init_ok new Hnew); reflexivity).
  unfold then_ in *. rewrite Hr in *. rewrite !find_phone_eq, Hfind.
  cbn [fst snd phones] in *.
  apply list_find_Some in Hfind as (Hi & Hp & _).
  assert (Hlt : i < length (phones r)) by (eapply lookup_lt_Some; exact Hi).
  assert (Hother : ∀ j q, j ≠ i → phones r !! j = Some q →
                          value q ≠ digits_of old ∧ value q ≠ digits_of new).
  { intros j q Hj Hq. split.
    - intros Hv. apply Hj. unfold no_duplicate_phones in Hnd.
      apply (NoDup_lookup _ j i (digits_of old) Hnd);
        rewrite list_lookup_fmap; [rewrite Hq | rewrite Hi]; simpl; congruence.
    - intros Hv. apply Hfresh. rewrite <- Hv.
      apply list_elem_of_fmap_2, list_elem_of_lookup. eauto. }
  split_and!; [reflexivity | reflexivity | | | exact Hnd'].
  - f_equal. apply list_find_Some. split_and!.
    + apply list_lookup_insert_eq. exact Hlt.
    + reflexivity.
    + intros j q Hq Hj. rewrite list_lookup_insert_ne in Hq by lia.
      apply (Hother j q); [lia | exact Hq].
  - f_equal. apply find_absent. intros q Hq.
    apply list_elem_of_lookup in Hq as [j Hq].
    apply list_lookup_insert_Some in Hq as [(_ & <- & _)|[Hj Hq]].
    + simpl. intros Hv. apply Hfresh. rewrite Hv, <- Hp.
      apply list_elem_of_fmap_2, list_elem_of_lookup. eauto.
    + apply (Hother j q); [congruence | exact Hq].
Qed.

Lemma edit_phone_then_find_witness :
  ∃ i p,
    fst (find_phone (lit "555-555-5555") john) = inr (Some (i, p)) ∧
    fst (edit_phone (lit "555-555-5555") (lit "111 222 3333") john) = inr tt ∧
    fst (find_phone (lit "111 222 3333")
           (then_ john (edit_phone (lit "555-555-5555") (lit "111 222 3333"))))
    = inr (Some (i, mkField (digits_of (lit "111 222 3333")))) ∧
    fst (find_phone (lit "555-555-5555")
           (then_ john (edit_phone (lit "555-555-5555") (lit "111 222 3333"))))
    = inr None ∧
    no_duplicate_phones (then_ john (edit_phone (lit "555-555-5555") (lit "111 222 3333"))).
Proof.
  apply edit_phone_then_find.
  - apply add_phone_no_duplicates, add_phone_no_duplicates, NoDup_nil_2.
  - exists (mkField (lit "5555555555")). split; [|reflexivity]. vm_compute. right. left.
  - reflexivity.
  - vm_compute. intros H. apply list_elem_of_In in H. simpl in H.
    destruct H as [H|[H|[]]]; discriminate H.
Defined.

(** * Further properties of the world *)

(** ** Properties every record object keeps *)

Section heap_invariant.
Variable P : ContactRecord → Prop.
Variable allowed : call → bool.
Hypothesis P_init : ∀ n r, Record_init n = inr r → P r.
Hypothesis P_add : ∀ v r, P r → P (snd (add_phone v r)).
Hypothesis P_remove : ∀ v r, P r → P (snd (remove_phone v r)).
Hypothesis P_edit :
  ∀ a old new r, allowed (EditPhone a old new) = true →
    P r → P (snd (edit_phone old new r)).

Lemma on_record_heap {A} (a : ref) (m : M A) (w : World) :
  (∀ r, P r → P (snd (m r))) →
  Forall P (heap w) → Forall P (heap (snd (on_record a m w))).
Proof.
  intros Hm Hw. unfold on_record. destruct (heap w !! a) as [r|] eqn:Ha; [|exact Hw].
  specialize (Hm r). destruct (m r) as [x r']. simpl in *.
  apply Forall_insert; [exact Hw|]. apply Hm.
  exact (Forall_lookup_1 _ _ _ _ Hw Ha).
Qed.

Lemma exec_heap (c : call) (w : World) :
  allowed c = true → Forall P (heap w) → Forall P (heap (exec c w)).
Proof.
  intros Hc Hw. destruct c as [n|a v|a v|a old new|a|nm]; simpl.
  - unfold new_record. destruct (Record_init n) as [e|r] eqn:Hr; [exact Hw|].
    simpl. apply Forall_app. split; [exact Hw|]. repeat constructor. eauto.
  - apply on_record_heap; [apply P_add | exact Hw].
  - apply on_record_heap; [apply P_remove | exact Hw].
  - apply on_record_heap; [intros r; exact (P_edit a old new r Hc) | exact Hw].
  - unfold Book.add_record. destruct (heap w !! a); exact Hw.
  - unfold Book.delete. destruct (dict_del nm (data (book w))); exact Hw.
Qed.

Lemma run_heap (cs : list call) (w : World) :
  forallb allowed cs = true → Forall P (heap w) → Forall P (heap (run cs w)).
Proof.
  revert w. induction cs as [|c cs IH]; intros w Hcs Hw; [exact Hw|].
  simpl in Hcs. apply andb_true_iff in Hcs as [Hc Hcs].
  simpl. apply IH; [exact Hcs|]. apply exec_heap; assumption.
Qed.

End heap_invariant.

Lemma Forall_delete_keep {A} (Q : A → Prop) (l : list A) (i : nat) :
  Forall Q l → Forall Q (delete i l).
Proof.
  intros H. rewrite delete_take_drop. apply Forall_app.
  split; [apply Forall_take | apply Forall_drop]; exact H.
Qed.

Lemma add_phone_valid (v : pystr) (r : ContactRecord) :
  record_valid r → record_valid (snd (add_phone v r)).
Proof.
  intros (Hne & Htr & Hps). unfold record_valid. rewrite add_phone_name.
  split_and!; [assumption..|]. rewrite add_phone_eq.
  destruct (decide (length (digits_of v) = 10)) as [Hlen|Hlen].
  - rewrite (Phone_init_ok v Hlen). simpl. destruct (existsb _ _); [exact Hps|].
    simpl. apply Forall_app. split; [exact Hps|]. repeat constructor.
    + exact Hlen.
    + apply digits_of_isdigit.
  - rewrite (Phone_init_error v Hlen). exact Hps.
Qed.

Lemma remove_phone_valid (v : pystr) (r : ContactRecord) :
  record_valid r → record_valid (snd (remove_phone v r)).
Proof.
  intros (Hne & Htr & Hps). unfold record_valid. rewrite remove_phone_name.
  split_and!; [assumption..|]. rewrite remove_phone_eq.
  destruct (list_find _ _) as [[i p]|]; [|exact Hps].
  simpl. apply Forall_delete_keep. exact Hps.
Qed.

Lemma edit_phone_valid (old new : pystr) (r : ContactRecord) :
  record_valid r → record_valid (snd (edit_phone old new r)).
Proof.
  intros (Hne & Htr & Hps). unfold record_valid. rewrite edit_phone_name.
  split_and!; [assumption..|]. rewrite edit_phone_eq.
  destruct (list_find _ _) as [[i p]|]; [|exact Hps].
  destruct (decide (length (digits_of new) = 10)) as [Hlen|Hlen].
  - rewrite (Phone_init_ok new Hlen). simpl. apply Forall_insert; [exact Hps|].
    split; [exact Hlen | apply digits_of_isdigit].
  - rewrite (Phone_init_error new Hlen). exact Hps.
Qed.

Lemma Record_init_valid (n : pystr) (r : ContactRecord) :
  Record_init n = inr r → record_valid r.
Proof.
  intros Hr. pose proof (Record_init_inv n r Hr) as ->.
  unfold Record_init, Name_init in Hr. rewrite or_empty_id in Hr.
  split_and!; simpl.
  - destruct (strip n); [discriminate Hr | discriminate].
  - apply strip_is_trimmed.
  - constructor.
Qed.

(** Whatever the calls made, every record object has a name that is not
    empty and neither starts nor ends with whitespace, every phone in it
    has ten characters of [str.isdigit], and every key of the book is such
    a name: no method lets an invalid name or number in. *)
Theorem records_stay_valid (cs : list call) :
  let w := run cs empty_world in
  (∀ a r, heap w !! a = Some r → record_valid r) ∧
  (∀ k, k ∈ (book_items w).*1 → k ≠ [] ∧ trimmed k).
Proof.
  cbv zeta.
  assert (Hheap : Forall record_valid (heap (run cs empty_world))).
  { apply (run_heap record_valid (λ _, true)).
    - exact Record_init_valid.
    - exact add_phone_valid.
    - exact remove_phone_valid.
    - intros _ old new r _. apply edit_phone_valid.
    - induction cs; [reflexivity | assumption].
    - constructor. }
  split.
  - intros a r Ha. exact (Forall_lookup_1 _ _ _ _ Hheap Ha).
  - intros k Hk. unfold book_items in Hk. rewrite traverse_entries in Hk.
    apply list_elem_of_fmap in Hk as ([k' a] & -> & Hin). simpl.
    destruct (run_inv cs empty_world empty_world_inv) as [_ Hkeys].
    destruct (Hkeys k' a Hin) as (r & Hr & <-).
    destruct (Forall_lookup_1 _ _ _ _ Hheap Hr) as (Hne & Htr & _). auto.
Qed.

(** As long as [edit_phone] is not called, no record object ever holds a
    number twice. *)
Theorem no_edit_no_duplicates (cs : list call) (a : ref) (r : ContactRecord) :
  forallb no_edit cs = true →
  heap (run cs empty_world) !! a = Some r →
  no_duplicate_phones r.
Proof.
  intros Hcs Ha.
  assert (Hheap : Forall no_duplicate_phones (heap (run cs empty_world))).
  { apply (run_heap no_duplicate_phones no_edit).
    - exact Record_init_no_duplicates.
    - intros v r0. apply add_phone_no_duplicates.
    - intros v r0. apply remove_phone_no_duplicates.
    - intros a0 old new r0 H. discriminate H.
    - exact Hcs.
    - constructor. }
  exact (Forall_lookup_1 _ _ _ _ Hheap Ha).
Qed.

Lemma no_edit_no_duplicates_witness :
  no_duplicate_phones
    (mkRecord (mkField (lit "John"))
       [mkField (lit "1234567890"); mkField (lit "5555555555")]).
Proof. apply (no_edit_no_duplicates driver 0); reflexivity. Defined.

(** ** Deleting an entry *)

Lemma dict_get_app {V} (d1 d2 : pydict V) (k : pystr) :
  dict_get k (d1 ++ d2)
  = match dict_get k d1 with Some v => Some v | None => dict_get k d2 end.
Proof.
  induction d1 as [|[k' v'] d1 IH]; simpl; [reflexivity|].
  destruct (decide (k' = k)); [reflexivity | exact IH].
Qed.

Lemma run_keys_NoDup (cs : list call) : NoDup (data (book (run cs empty_world))).*1.
Proof.
  pose proof (dict_run_order (book_trace cs empty_world)) as Hinv.
  pose proof (run_book cs empty_world) as Hrun.
  change (data (book empty_world)) with ([] : pydict ref) in Hrun.
  rewrite <- Hrun in Hinv. exact (dict_inv_NoDup _ _ _ Hinv).
Qed.

(** In a book built by calls, [delete] of a name that [find] finds
    returns and takes out that one entry: the entries before and after it
    keep their order, the name is no longer found, every other name is
    found as before, and no record object is touched. *)
Theorem delete_removes_entry (cs : list call) (nm : pystr) (a : ref) :
  let w := run cs empty_world in
  Book.find nm w = Some a →
  ∃ before after,
    book_items w = before ++ (nm, a) :: after ∧
    Book.delete nm w = (inr tt, mkWorld (heap w) (mkBook (before ++ after))) ∧
    book_items (snd (Book.delete nm w)) = before ++ after ∧
    Book.find nm (snd (Book.delete nm w)) = None ∧
    (∀ k, k ≠ nm → Book.find k (snd (Book.delete nm w)) = Book.find k w).
Proof.
  cbv zeta. pose proof (run_keys_NoDup cs) as Hnd.
  set (w := run cs empty_world) in *. intros Hfind.
  unfold Book.find, Book.delete, book_items in *. rewrite traverse_entries.
  destruct (dict_del nm (data (book w))) as [d'|] eqn:Hdel.
  - apply dict_del_Some in Hdel as (d1 & v & d2 & Hd & -> & Hk1).
    rewrite Hd in Hnd, Hfind |- *.
    assert (v = a) as ->.
    { rewrite (dict_get_elem _ nm v Hnd) in Hfind; [congruence|].
      apply elem_of_app. right. left. }
    rewrite fmap_app, fmap_cons in Hnd. simpl in Hnd.
    apply NoDup_app in Hnd as (_ & _ & Hnd2). apply NoDup_cons in Hnd2 as [Hk2 _].
    exists d1, d2. simpl. rewrite traverse_entries. split_and!; try reflexivity.
    + apply dict_get_None. rewrite fmap_app. intros Hin.
      apply elem_of_app in Hin as [?|?]; contradiction.
    + intros k Hk. rewrite !dict_get_app. simpl.
      rewrite decide_False by congruence. reflexivity.
  - apply dict_del_None, dict_get_None in Hdel. congruence.
Qed.

Lemma delete_removes_entry_witness :
  ∃ before after,
    book_items (run driver empty_world) = before ++ (lit "John", 0) :: after ∧
    Book.delete (lit "John") (run driver empty_world)
    = (inr tt, mkWorld (heap (run driver empty_world)) (mkBook (before ++ after))) ∧
    book_items (snd (Book.delete (lit "John") (run driver empty_world))) = before ++ after ∧
    Book.find (lit "John") (snd (Book.delete (lit "John") (run driver empty_world))) = None ∧
    (∀ k, k ≠ lit "John" →
       Book.find k (snd (Book.delete (lit "John") (run driver empty_world)))
       = Book.find k (run driver empty_world)).
Proof. apply (delete_removes_entry driver (lit "John") 0). reflexivity. Defined.

(** ** One key for a record *)

(** In a book built by calls, no record object stands under two keys: a
    record is stored under its own name only, so adding it again puts it
    where it already is. *)
Theorem record_under_one_key (cs : list call) :
  let w := run cs empty_world in
  NoDup (book_items w).*2 ∧
  (∀ k1 k2 a, Book.find k1 w = Some a → Book.find k2 w = Some a → k1 = k2) ∧
  (∀ k a, Book.find k w = Some a → book_items (Book.add_record a w) = book_items w).
Proof.
  cbv zeta. pose proof (run_keys_NoDup cs) as Hnd.
  destruct (run_inv cs empty_world empty_world_inv) as [_ Hkeys].
  set (w := run cs empty_world) in *.
  assert (Hone : ∀ k1 k2 a, (k1, a) ∈ data (book w) → (k2, a) ∈ data (book w) → k1 = k2).
  { intros k1 k2 a H1 H2.
    destruct (Hkeys k1 a H1) as (r1 & Hr1 & <-).
    destruct (Hkeys k2 a H2) as (r2 & Hr2 & <-). congruence. }
  unfold book_items. rewrite traverse_entries. split_and!.
  - apply NoDup_fmap_2_strong; [|eapply NoDup_fmap_1; exact Hnd].
    intros [k1 a1] [k2 a2] H1 H2 Heq. simpl in Heq. subst a2.
    f_equal. exact (Hone k1 k2 a1 H1 H2).
  - intros k1 k2 a H1 H2. unfold Book.find in *.
    apply dict_get_Some_elem in H1, H2. exact (Hone k1 k2 a H1 H2).
  - intros k a Hfind. unfold Book.find in Hfind.
    pose proof (dict_get_Some_elem _ _ _ Hfind) as Hin.
    destruct (Hkeys k a Hin) as (r & Hr & <-).
    unfold Book.add_record. rewrite Hr. simpl. rewrite traverse_entries.
    clear - Hfind. induction (data (book w)) as [|[k' v'] d IH]; simpl in *; [discriminate|].
    destruct (decide (k' = value (name r))) as [->|Hne].
    + injection Hfind as ->. reflexivity.
    + rewrite IH by exact Hfind. reflexivity.
Qed.

(** * Further properties: adding and removing together *)

(** Adding a valid number the record does not hold and removing it again
    gives the record back, whatever the format of the two strings. *)
Theorem add_then_remove_restores (r : ContactRecord) (raw raw' : pystr) :
  length (digits_of raw) = 10 →
  digits_of raw ∉ value <$> phones r →
  digits_of raw' = digits_of raw →
  fst (add_phone raw r) = inr tt ∧
  remove_phone raw' (then_ r (add_phone raw)) = (inr tt, r).
Proof.
  intros Hlen Hfresh Hsame. unfold then_. rewrite add_phone_eq, (Phone_init_ok raw Hlen).
  simpl. destruct (existsb _ _) eqn:Hex.
  { exfalso. apply Hfresh. apply existsb_exists in Hex as (p & Hp & Heq).
    apply bool_decide_eq_true_1 in Heq. rewrite <- Heq.
    apply list_elem_of_fmap_2, list_elem_of_In. exact Hp. }
  split; [reflexivity|]. simpl. rewrite remove_phone_eq, Hsame. simpl.
  assert (Hfind : list_find (λ p, value p = digits_of raw)
                    (phones r ++ [mkField (digits_of raw)])
                  = Some (length (phones r), mkField (digits_of raw))).
  { apply list_find_Some. split_and!.
    - rewrite lookup_app_r by lia. rewrite Nat.sub_diag. reflexivity.
    - reflexivity.
    - intros j q Hq Hj Hv. rewrite lookup_app_l in Hq by exact Hj.
      apply Hfresh. rewrite <- Hv. apply list_elem_of_fmap_2, list_elem_of_lookup. eauto. }
  rewrite Hfind. rewrite delete_take_drop, take_app_length.
  rewrite drop_ge by (rewrite length_app; simpl; lia).
  rewrite app_nil_r. destruct r. reflexivity.
Qed.

Lemma add_then_remove_restores_witness :
  fst (add_phone (lit "(987) 654-3210") john) = inr tt ∧
  remove_phone (lit "987 654 3210") (then_ john (add_phone (lit "(987) 654-3210")))
  = (inr tt, john).
Proof.
  apply add_then_remove_restores; [reflexivity | | reflexivity].
  vm_compute. intros H. apply list_elem_of_In in H. simpl in H.
  destruct H as [H|[H|[]]]; discriminate H.
Defined.

Lemma count_value_cons (v : pystr) (nm : Name) (p : Phone) (ps : list Phone) :
  count_value v (mkRecord nm (p :: ps))
  = (if decide (value p = v) then 1 else 0) + count_value v (mkRecord nm ps).
Proof.
  unfold count_value. simpl. destruct (decide (value p = v)) as [Hv|Hv].
  - rewrite bool_decide_eq_true_2 by exact Hv. reflexivity.
  - rewrite bool_decide_eq_false_2 by exact Hv. reflexivity.
Qed.

(** A successful [remove_phone] takes away one phone and no more: the
    record holds the number one time less than before, so a number held
    twice is still found afterwards, and every other number as often as
    before. *)
Theorem remove_phone_one_copy (r : ContactRecord) (raw v : pystr) :
  (∃ p, p ∈ phones r ∧ value p = digits_of raw) →
  count_value v (then_ r (remove_phone raw))
  + (if decide (digits_of raw = v) then 1 else 0)
  = count_value v r.
Proof.
  intros Hraw. destruct (find_present _ _ Hraw) as (i & p & Hfind).
  unfold then_. rewrite remove_phone_eq, Hfind. simpl.
  apply list_find_Some in Hfind as (Hi & Hp & _).
  rewrite delete_take_drop. destruct r as [nm ps]. simpl in *.
  rewrite <- (take_drop_middle ps i p Hi) at 3.
  rewrite !count_value_app, count_value_cons, Hp. lia.
Qed.

Lemma remove_phone_one_copy_witness :
  count_value (lit "2222222222") (then_ doubled (remove_phone (lit "222-222-2222"))) + 1
  = count_value (lit "2222222222") doubled.
Proof.
  apply (remove_phone_one_copy doubled (lit "222-222-2222") (lit "2222222222")).
  exists (mkField (lit "2222222222")). split; [|reflexivity]. vm_compute. left.
Defined.
